(** * BaseConnection: the socket transport adapter of aio_pika/pika

    A shallow embedding of [aio_pika/pika/adapters/base_connection.py].
    The methods of [BaseConnection] become computations in a small
    state-and-exception monad; the operating system (sockets, name
    resolution, TLS) is a script of outcomes that the system calls consume
    in order; every call that leaves the object (socket, reactor, logger,
    protocol layer) is recorded in a trace. *)

From Stdlib Require Import ZArith List String DecimalString Bool Lia.
Import ListNotations.
Open Scope Z_scope.

(** ** Python values used by the adapter *)

Definition bytes := list Byte.byte.

(** [len(frame)] *)
Definition len (frame : bytes) : Z := Z.of_nat (List.length frame).

(** [frame[bw:]], with Python's treatment of a negative start. *)
Definition slice_from (frame : bytes) (bw : Z) : bytes :=
  if 0 <=? bw then skipn (Z.to_nat bw) frame
  else skipn (Z.to_nat (Z.max 0 (len frame + bw))) frame.

(** Truth value of an integer ([if events & self.WRITE:]). *)
Definition truthy (z : Z) : bool := negb (z =? 0).

(** [needle in hay] on strings. *)
Fixpoint str_contains (needle hay : string) : bool :=
  if String.prefix needle hay then true
  else match hay with
       | EmptyString => false
       | String _ hay' => str_contains needle hay'
       end.

(** ** Constants *)

Module errno.
(** Values of Python's [errno] module on Linux. *)
Definition EINTR : Z := 4.
Definition EBADF : Z := 9.
Definition EAGAIN : Z := 11.
Definition EWOULDBLOCK : Z := 11.
Definition EPIPE : Z := 32.
Definition ECONNABORTED : Z := 103.
Definition ETIMEDOUT : Z := 110.
End errno.

Module ssl.
Definition SSL_ERROR_WANT_READ : Z := 2.
Definition SSL_ERROR_WANT_WRITE : Z := 3.
End ssl.

Definition READ : Z := 0x0001.
Definition WRITE : Z := 0x0004.
Definition ERROR : Z := 0x0008.

Definition ERRORS_TO_ABORT : list Z :=
  [errno.EBADF; errno.ECONNABORTED; errno.EPIPE].
Definition ERRORS_TO_IGNORE : list Z :=
  [errno.EWOULDBLOCK; errno.EAGAIN; errno.EINTR].
Definition DO_HANDSHAKE : bool := true.
Definition WARN_ABOUT_IOLOOP : bool := false.

(** [x in xs] for a list of integers. *)
Definition mem (x : Z) (xs : list Z) : bool := existsb (Z.eqb x) xs.

(** ** Exceptions *)

(** The exception classes of the [OSError] family that the adapter tells
    apart: [socket.timeout] and [ssl.SSLError] are subclasses of [OSError]. *)
Inductive os_class := OSError | socket_timeout | SSLError.

Inductive pyarg := ArgInt (n : Z) | ArgStr (s : string).

(** An exception object as the socket and ssl modules raise them: [args]
    is never empty; [err_text] is [str(error)]. *)
Record OSErr := mkOSErr {
  err_class : os_class;
  err_errno : option Z;
  err_arg0 : pyarg;
  err_text : string }.

Inductive exn :=
| OSExc (e : OSErr)
| TimeoutRaised                     (* [raise socket.timeout] *)
| IncompatibleProtocolError
| ProbableAuthenticationError
| ProbableAccessDeniedError
| TypeError
| AttributeError.

(** [error.errno == code] *)
Definition errno_is (e : OSErr) (code : Z) : bool :=
  match err_errno e with Some c => c =? code | None => false end.

(** [error.args[0] == code] *)
Definition arg0_is (e : OSErr) (code : Z) : bool :=
  match err_arg0 e with ArgInt n => n =? code | ArgStr _ => false end.

Definition is_timeout (e : OSErr) : bool :=
  match err_class e with socket_timeout => true | _ => false end.

Definition is_SSLError (e : OSErr) : bool :=
  match err_class e with SSLError => true | _ => false end.

(** The [error_value] handed to [_handle_error]: [None], an integer, or an
    exception object ([:param int|object error_value]). *)
Inductive error_value := ErrNone | ErrInt (n : Z) | ErrExc (e : OSErr).

(** ** The protocol layer's phase *)

(** Modelled from the spec: the phase enumeration belongs to the protocol
    layer ([connection.Connection], not among the sources); the spec's data
    model lists its values.  The adapter only compares [connection_state]
    with them. *)
Inductive ConnectionPhase :=
| Resolving | Connecting | ProtocolHandshake | Authenticating | Tuning
| Open | Closing | Closed.

Definition phase_eqb (a b : ConnectionPhase) : bool :=
  match a, b with
  | Resolving, Resolving | Connecting, Connecting
  | ProtocolHandshake, ProtocolHandshake | Authenticating, Authenticating
  | Tuning, Tuning | Open, Open | Closing, Closing | Closed, Closed => true
  | _, _ => false
  end.

(** The class constants that [_check_state_on_disconnect] compares the
    phase with: the spec's ProtocolHandshake, Authenticating and Tuning. *)
Definition CONNECTION_PROTOCOL := ProtocolHandshake.
Definition CONNECTION_START := Authenticating.
Definition CONNECTION_TUNE := Tuning.

(** ** Sockets, the world and the trace *)

(** One entry of [socket.getaddrinfo]: [sock_addr_tuple[0]] is the family,
    [sock_addr_tuple[4]] the pair of host and port. *)
Record AddrInfo := mkAddrInfo {
  ai_family : Z;
  ai_host : string;
  ai_port : Z }.

Record Socket := mkSocket {
  fileno : Z;
  sock_family : Z;
  wrapped : bool;               (* passed through [ssl.wrap_socket] *)
  blocking : bool;
  peer : option AddrInfo }.

Inductive level := DEBUG | INFO | WARNING | ERROR_ | CRITICAL.

(** Calls that leave the object.  A [Log] keeps the level and the format
    string of the call.  The methods of the protocol layer that the adapter
    calls ([_remove_heartbeat], [_on_data_available],
    [_on_connection_closed]) are not among the sources: a call to one of
    them is an event and nothing more. *)
Inductive event :=
| Log (lv : level) (msg : string)
| GetAddrInfo
| SockCreate (fd family : Z)
| SockSetNoDelay (fd : Z)
| SockSetTimeout (fd : Z)
| SockWrap (fd : Z)
| SockConnect (fd : Z) (a : AddrInfo)
| SockHandshake (fd : Z)
| SockSetBlocking (fd : Z) (flag : bool)
| SockSend (fd : Z) (frame : bytes)
| SockRecv (fd : Z)
| SockShutdown (fd : Z)
| SockClose (fd : Z)
| UpdateHandler (fd mask : Z)         (* [ioloop.update_handler] *)
| IoloopStop                          (* [ioloop.stop] *)
| RemoveHeartbeat                     (* [_remove_heartbeat] *)
| OnDataAvailable (data : bytes)      (* [_on_data_available] *)
| OnConnectionClosed.                 (* [_on_connection_closed(None, True)] *)

(** What a system call does: it returns a value or raises. *)
Inductive outcome (A : Type) := Done (a : A) | Fails (e : OSErr).
Arguments Done {A} a.
Arguments Fails {A} e.

(** The attributes of the instance.  [ioloop] tells whether a reactor is
    attached ([self.ioloop] is not [None]); [connection_state] and
    [outbound_buffer] are the protocol layer's. *)
Record Connection := mkConnection {
  params_ssl : bool;
  ioloop : bool;
  stop_ioloop_on_close : bool;
  socket : option Socket;
  base_events : Z;
  event_state : Z;
  connection_state : ConnectionPhase;
  outbound_buffer : list bytes }.

(** The operating system: for each kind of call the outcomes of the calls
    still to come, the descriptor of the next socket, and whether
    [shutdown] raises on a descriptor. *)
Record World := mkWorld {
  resolves : list (outcome (list AddrInfo));
  connects : list (outcome unit);
  handshakes : list (outcome unit);
  sends : list (outcome Z);
  recvs : list (outcome bytes);
  next_fileno : Z;
  shutdown_error : Z -> option OSErr }.

Record State := mkState {
  self : Connection;
  world : World;
  trace : list event }.

(** ** The monad *)

(** A computation returns, raises, or is [Pending]: it asked the world for
    an outcome the script does not have. *)
Inductive Res (A : Type) := Ok (a : A) | Raise (e : exn) | Pending.
Arguments Ok {A} a.
Arguments Raise {A} e.
Arguments Pending {A}.

Definition M (A : Type) : Type := State -> Res A * State.

Definition ret {A} (a : A) : M A := fun st => (Ok a, st).
Definition raise {A} (e : exn) : M A := fun st => (Raise e, st).
Definition pending {A} : M A := fun st => (Pending, st).

Definition bind {A B} (m : M A) (k : A -> M B) : M B :=
  fun st =>
    match m st with
    | (Ok a, st') => k a st'
    | (Raise e, st') => (Raise e, st')
    | (Pending, st') => (Pending, st')
    end.

Declare Scope monad_scope.
Delimit Scope monad_scope with monad.
Notation "x <- m ;; k" := (bind m (fun x => k))
  (at level 61, m at next level, right associativity) : monad_scope.
Notation "m ;; k" := (bind m (fun _ => k))
  (at level 61, right associativity) : monad_scope.
Open Scope monad_scope.

(** [try: body except ...]: the handler picks the clause that matches, or
    [None] when no clause does and the exception goes on. *)
Definition try_except {A} (body : M A) (handler : exn -> option (M A)) : M A :=
  fun st =>
    match body st with
    | (Raise e, st') =>
        match handler e with
        | Some h => h st'
        | None => (Raise e, st')
        end
    | r => r
    end.

(** [try: body finally: final] *)
Definition try_finally {A} (body : M A) (final : M unit) : M A :=
  fun st =>
    match body st with
    | (Pending, st') => (Pending, st')
    | (r, st') =>
        match final st' with
        | (Ok _, st'') => (r, st'')
        | (Raise e, st'') => (Raise e, st'')
        | (Pending, st'') => (Pending, st'')
        end
    end.

(** Runs [m] and hands back what it raised as a value. *)
Definition attempt {A} (m : M A) : M (A + exn) :=
  fun st =>
    match m st with
    | (Ok a, st') => (Ok (inl a), st')
    | (Raise e, st') => (Ok (inr e), st')
    | (Pending, st') => (Pending, st')
    end.

Definition gets {A} (f : Connection -> A) : M A := fun st => (Ok (f (self st)), st).
Definition ask {A} (f : World -> A) : M A := fun st => (Ok (f (world st)), st).

Definition emit (e : event) : M unit :=
  fun st => (Ok tt, mkState (self st) (world st) (trace st ++ [e])).

Definition log (lv : level) (msg : string) : M unit := emit (Log lv msg).

Definition update_self (f : Connection -> Connection) : M unit :=
  fun st => (Ok tt, mkState (f (self st)) (world st) (trace st)).

Definition update_world (f : World -> World) : M unit :=
  fun st => (Ok tt, mkState (self st) (f (world st)) (trace st)).

(** *** Attribute assignments *)

Definition with_socket (s : option Socket) (c : Connection) : Connection :=
  mkConnection (params_ssl c) (ioloop c) (stop_ioloop_on_close c) s
    (base_events c) (event_state c) (connection_state c) (outbound_buffer c).

Definition with_base_events (m : Z) (c : Connection) : Connection :=
  mkConnection (params_ssl c) (ioloop c) (stop_ioloop_on_close c) (socket c)
    m (event_state c) (connection_state c) (outbound_buffer c).

Definition with_event_state (m : Z) (c : Connection) : Connection :=
  mkConnection (params_ssl c) (ioloop c) (stop_ioloop_on_close c) (socket c)
    (base_events c) m (connection_state c) (outbound_buffer c).

Definition with_connection_state (p : ConnectionPhase) (c : Connection) : Connection :=
  mkConnection (params_ssl c) (ioloop c) (stop_ioloop_on_close c) (socket c)
    (base_events c) (event_state c) p (outbound_buffer c).

Definition with_outbound_buffer (q : list bytes) (c : Connection) : Connection :=
  mkConnection (params_ssl c) (ioloop c) (stop_ioloop_on_close c) (socket c)
    (base_events c) (event_state c) (connection_state c) q.

Definition with_resolves (l : list (outcome (list AddrInfo))) (w : World) : World :=
  mkWorld l (connects w) (handshakes w) (sends w) (recvs w)
    (next_fileno w) (shutdown_error w).

Definition with_connects (l : list (outcome unit)) (w : World) : World :=
  mkWorld (resolves w) l (handshakes w) (sends w) (recvs w)
    (next_fileno w) (shutdown_error w).

Definition with_handshakes (l : list (outcome unit)) (w : World) : World :=
  mkWorld (resolves w) (connects w) l (sends w) (recvs w)
    (next_fileno w) (shutdown_error w).

Definition with_sends (l : list (outcome Z)) (w : World) : World :=
  mkWorld (resolves w) (connects w) (handshakes w) l (recvs w)
    (next_fileno w) (shutdown_error w).

Definition with_recvs (l : list (outcome bytes)) (w : World) : World :=
  mkWorld (resolves w) (connects w) (handshakes w) (sends w) l
    (next_fileno w) (shutdown_error w).

Definition with_next_fileno (n : Z) (w : World) : World :=
  mkWorld (resolves w) (connects w) (handshakes w) (sends w) (recvs w)
    n (shutdown_error w).

(** ** System calls *)

(** A call hands out the next outcome of its script: the value, the
    exception, or [Pending] when the script is exhausted. *)
Definition take {A} (script : World -> list (outcome A))
    (rest : list (outcome A) -> World -> World) : M A :=
  fun st =>
    match script (world st) with
    | [] => (Pending, st)
    | Done a :: l => (Ok a, mkState (self st) (rest l (world st)) (trace st))
    | Fails e :: l => (Raise (OSExc e), mkState (self st) (rest l (world st)) (trace st))
    end.

(** [self.socket.<method>]: an [AttributeError] when [self.socket] is [None]. *)
Definition the_socket : M Socket :=
  s <- gets socket ;;
  match s with
  | Some sock => ret sock
  | None => raise AttributeError
  end.

(** [self.socket.send(frame)] *)
Definition socket_send (frame : bytes) : M Z :=
  sock <- the_socket ;;
  emit (SockSend (fileno sock) frame) ;;
  take sends with_sends.

(** [self.socket.read(self._buffer_size)] and [self.socket.recv(self._buffer_size)] *)
Definition socket_recv : M bytes :=
  sock <- the_socket ;;
  emit (SockRecv (fileno sock)) ;;
  take recvs with_recvs.

(** [self.socket.do_handshake()] *)
Definition socket_do_handshake : M unit :=
  sock <- the_socket ;;
  emit (SockHandshake (fileno sock)) ;;
  take handshakes with_handshakes.

(** [self.socket.connect(sock_addr_tuple[4])] *)
Definition socket_connect (a : AddrInfo) : M unit :=
  sock <- the_socket ;;
  emit (SockConnect (fileno sock) a) ;;
  take connects with_connects ;;
  update_self (with_socket
    (Some (mkSocket (fileno sock) (sock_family sock) (wrapped sock) (blocking sock) (Some a)))).

(** [self.socket.shutdown(socket.SHUT_RDWR)] *)
Definition socket_shutdown : M unit :=
  sock <- the_socket ;;
  emit (SockShutdown (fileno sock)) ;;
  err <- ask (fun w => shutdown_error w (fileno sock)) ;;
  match err with
  | Some e => raise (OSExc e)
  | None => ret tt
  end.

(** [self.socket.close()] *)
Definition socket_close : M unit :=
  sock <- the_socket ;;
  emit (SockClose (fileno sock)).

(** [self.socket.setblocking(0)] *)
Definition socket_setblocking (flag : bool) : M unit :=
  sock <- the_socket ;;
  emit (SockSetBlocking (fileno sock) flag) ;;
  update_self (with_socket
    (Some (mkSocket (fileno sock) (sock_family sock) (wrapped sock) flag (peer sock)))).

(** [socket.getaddrinfo(host, port, 0, SOCK_STREAM, IPPROTO_TCP)] *)
Definition getaddrinfo : M (list AddrInfo) :=
  emit GetAddrInfo ;;
  take resolves with_resolves.

(** [self.ioloop.update_handler(self.socket.fileno(), self.event_state)]:
    an [AttributeError] when the reactor or the socket is [None]. *)
Definition ioloop_update_handler : M unit :=
  loop <- gets ioloop ;;
  if loop then
    sock <- the_socket ;;
    mask <- gets event_state ;;
    emit (UpdateHandler (fileno sock) mask)
  else raise AttributeError.

(** ** The methods of [BaseConnection] *)

(** A [while True] of the source is a recursion on [fuel].  Every turn of
    such a loop takes one outcome of a script of the world, and the loop is
    started with more fuel than the script is long: it ends by its own
    exits or is [Pending] on the exhausted script, never for want of
    fuel. *)

(** [str(port)] for the [%s] of the messages. *)
Definition str_of_int (n : Z) : string := NilZero.string_of_int (Z.to_int n).

(** [_handle_ioloop_stop] *)
Definition _handle_ioloop_stop : M unit :=
  stop <- gets stop_ioloop_on_close ;;
  loop <- gets ioloop ;;
  if stop && loop then emit IoloopStop
  else if WARN_ABOUT_IOLOOP then
    log WARNING "Connection is closed but not stopping IOLoop"
  else ret tt.

(** Modelled from the spec: [connection.Connection._init_connection_state],
    the protocol layer's part of the reset, is not among the sources.  The
    spec has the reset wipe the state for a fresh open, pending writes
    discarded: the phase returns to [Closed] and the outbound queue is
    emptied. *)
Definition super_init_connection_state : M unit :=
  update_self (with_connection_state Closed) ;;
  update_self (with_outbound_buffer []).

(** [_init_connection_state] *)
Definition _init_connection_state : M unit :=
  super_init_connection_state ;;
  update_self (with_base_events (Z.lor READ ERROR)) ;;
  base <- gets base_events ;;
  update_self (with_event_state base) ;;
  update_self (with_socket None).

(** [_cleanup_socket] *)
Definition _cleanup_socket : M unit :=
  s <- gets socket ;;
  match s with
  | Some _ =>
      try_except socket_shutdown
        (fun ex => match ex with
                   | OSExc _ => Some (ret tt)
                   | _ => None
                   end) ;;
      socket_close ;;
      update_self (with_socket None)
  | None => ret tt
  end.

(** Modelled from the spec: the properties [is_open], [is_closed] and
    [is_closing] of [connection.Connection] (not among the sources) test the
    phase for the spec's Open, Closed and Closing. *)
Definition is_open (c : Connection) : bool := phase_eqb (connection_state c) Open.
Definition is_closed (c : Connection) : bool := phase_eqb (connection_state c) Closed.
Definition is_closing (c : Connection) : bool := phase_eqb (connection_state c) Closing.

(** [_check_state_on_disconnect] *)
Definition _check_state_on_disconnect : M unit :=
  c <- gets (fun c => c) ;;
  if phase_eqb (connection_state c) CONNECTION_PROTOCOL then
    log ERROR_ "Incompatible Protocol Versions" ;;
    raise IncompatibleProtocolError
  else if phase_eqb (connection_state c) CONNECTION_START then
    log ERROR_ "Socket closed while authenticating indicating a probable authentication error" ;;
    raise ProbableAuthenticationError
  else if phase_eqb (connection_state c) CONNECTION_TUNE then
    log ERROR_ "Socket closed while tuning the connection indicating a probable permission error when accessing a virtual host" ;;
    raise ProbableAccessDeniedError
  else if is_open c then
    log WARNING "Socket closed when connection was open"
  else if negb (is_closed c) && negb (is_closing c) then
    log WARNING "Unknown state on disconnect: %i"
  else ret tt.

(** [_adapter_disconnect] *)
Definition _adapter_disconnect : M unit :=
  try_finally
    (emit RemoveHeartbeat ;;
     _cleanup_socket ;;
     _check_state_on_disconnect)
    (_handle_ioloop_stop ;;
     _init_connection_state).

(** [_handle_disconnect] *)
Definition _handle_disconnect : M unit :=
  _adapter_disconnect ;;
  emit OnConnectionClosed.

(** ['timed out' in str(error_value)]: [str(None)] is ["None"], the text of
    an integer is made of digits and a sign. *)
Definition timed_out_in_str (error_value : error_value) : bool :=
  match error_value with
  | ErrNone => str_contains "timed out" "None"
  | ErrInt _ => false
  | ErrExc e => str_contains "timed out" (err_text e)
  end.

(** [_get_error_code]: an exception has the attribute [errno]; an integer
    other than 0 is indexed, which raises [TypeError]. *)
Definition _get_error_code (error_value : error_value) : M (option Z) :=
  match error_value with
  | ErrNone => ret None
  | ErrInt n => if n =? 0 then ret None else raise TypeError
  | ErrExc e => ret (err_errno e)
  end.

(** [not error_code] *)
Definition no_code (error_code : option Z) : bool :=
  match error_code with None => true | Some c => c =? 0 end.

Definition code_of (error_code : option Z) : Z :=
  match error_code with None => 0 | Some c => c end.

(** [isinstance(error_value, ssl.SSLError)] *)
Definition isinstance_SSLError (error_value : error_value) : bool :=
  match error_value with ErrExc e => is_SSLError e | _ => false end.

(** [error_value.args[0] == code], reached for an [ssl.SSLError] only. *)
Definition error_arg0_is (error_value : error_value) (code : Z) : bool :=
  match error_value with ErrExc e => arg0_is e code | _ => false end.

(** [_handle_error] *)
Definition _handle_error (error_value : error_value) : M unit :=
  if timed_out_in_str error_value then raise TimeoutRaised
  else
    error_code <- _get_error_code error_value ;;
    if no_code error_code then
      log CRITICAL "Tried to handle an error where no error existed"
    else if mem (code_of error_code) ERRORS_TO_IGNORE then
      log DEBUG "Ignoring %s"
    else
      use_ssl <- gets params_ssl ;;
      (if mem (code_of error_code) ERRORS_TO_ABORT then
         log ERROR_ "Fatal Socket Error: %r"
       else if use_ssl && isinstance_SSLError error_value then
         if error_arg0_is error_value ssl.SSL_ERROR_WANT_READ then
           update_self (with_event_state READ)
         else if error_arg0_is error_value ssl.SSL_ERROR_WANT_WRITE then
           update_self (with_event_state WRITE)
         else
           log ERROR_ "SSL Socket error: %r"
       else
         log ERROR_ "Socket Error: %s") ;;
      _handle_disconnect.

(** [_handle_timeout] *)
Definition _handle_timeout : M unit := ret tt.

(** [_manage_event_state] *)
Definition _manage_event_state : M unit :=
  buffer <- gets outbound_buffer ;;
  state <- gets event_state ;;
  match buffer with
  | _ :: _ =>
      if negb (truthy (Z.land state WRITE)) then
        update_self (with_event_state (Z.lor state WRITE)) ;;
        ioloop_update_handler
      else ret tt
  | [] =>
      if truthy (Z.land state WRITE) then
        base <- gets base_events ;;
        update_self (with_event_state base) ;;
        ioloop_update_handler
      else ret tt
  end.

(** The [while True] of [_do_ssl_handshake]. *)
Fixpoint ssl_handshake_loop (fuel : nat) : M unit :=
  match fuel with
  | O => pending
  | S fuel' =>
      r <- attempt socket_do_handshake ;;
      match r with
      | inl _ => ret tt
      | inr (OSExc err) =>
          if is_SSLError err then
            (if arg0_is err ssl.SSL_ERROR_WANT_READ then
               update_self (with_event_state READ)
             else if arg0_is err ssl.SSL_ERROR_WANT_WRITE then
               update_self (with_event_state WRITE)
             else raise (OSExc err)) ;;
            _manage_event_state ;;
            ssl_handshake_loop fuel'
          else raise (OSExc err)
      | inr ex => raise ex
      end
  end.

(** [_do_ssl_handshake] *)
Definition _do_ssl_handshake : M unit :=
  if negb DO_HANDSHAKE then ret tt
  else
    script <- ask handshakes ;;
    ssl_handshake_loop (S (List.length script)).

(** [_wrap_socket], on [self.socket] *)
Definition _wrap_socket : M unit :=
  sock <- the_socket ;;
  emit (SockWrap (fileno sock)) ;;
  update_self (with_socket
    (Some (mkSocket (fileno sock) (sock_family sock) true (blocking sock) (peer sock)))).

(** The error strings of [_create_and_connect_to_socket]. *)
Definition connection_to (a : AddrInfo) : string :=
  ("Connection to " ++ ai_host a ++ ":" ++ str_of_int (ai_port a))%string.

Definition timeout_message (a : AddrInfo) : string :=
  (connection_to a ++ " failed: timeout")%string.

Definition failure_message (a : AddrInfo) (error : OSErr) : string :=
  (connection_to a ++ " failed: " ++ err_text error)%string.

Definition ssl_failure_message (a : AddrInfo) (error : OSErr) : string :=
  ("SSL connection to " ++ ai_host a ++ ":" ++ str_of_int (ai_port a)
     ++ " failed: " ++ err_text error)%string.

(** [_create_and_connect_to_socket]: the error string, or [None]. *)
Definition _create_and_connect_to_socket (sock_addr : AddrInfo) : M (option string) :=
  fd <- ask next_fileno ;;
  update_world (with_next_fileno (fd + 1)) ;;
  emit (SockCreate fd (ai_family sock_addr)) ;;
  update_self (with_socket (Some (mkSocket fd (ai_family sock_addr) false true None))) ;;
  emit (SockSetNoDelay fd) ;;
  emit (SockSetTimeout fd) ;;
  use_ssl <- gets params_ssl ;;
  (if use_ssl then _wrap_socket else ret tt) ;;
  log INFO "Connecting to %s:%s%s" ;;
  failed <- try_except (socket_connect sock_addr ;; ret None)
    (fun ex =>
       match ex with
       | OSExc error =>
           if is_timeout error then
             Some (let error := timeout_message sock_addr in
                   log ERROR_ error ;; ret (Some error))
           else
             Some (let error := failure_message sock_addr error in
                   log WARNING error ;; ret (Some error))
       | _ => None
       end) ;;
  match failed with
  | Some error => ret (Some error)
  | None =>
      if use_ssl && DO_HANDSHAKE then
        try_except (_do_ssl_handshake ;; ret None)
          (fun ex =>
             match ex with
             | OSExc error =>
                 if is_SSLError error then
                   Some (let error := ssl_failure_message sock_addr error in
                         log ERROR_ error ;; ret (Some error))
                 else None
             | _ => None
             end)
      else ret None
  end.

(** What [_adapter_connect] returns: [None], an error string, or the
    exception of the resolution. *)
Inductive connect_error := ErrorText (s : string) | ErrorObject (e : OSErr).

(** [not error] for the value of [_create_and_connect_to_socket]. *)
Definition no_error (error : option string) : bool :=
  match error with
  | None => true
  | Some s => match s with EmptyString => true | _ => false end
  end.

(** The [while True] around [socket.getaddrinfo]. *)
Fixpoint resolve_loop (fuel : nat) : M (list AddrInfo + OSErr) :=
  match fuel with
  | O => pending
  | S fuel' =>
      r <- attempt getaddrinfo ;;
      match r with
      | inl addresses => ret (inl addresses)
      | inr (OSExc error) =>
          if errno_is error errno.EINTR then resolve_loop fuel'
          else
            log CRITICAL "Could not get addresses to use: %s (%s)" ;;
            ret (inr error)
      | inr ex => raise ex
      end
  end.

(** The [for sock_addr in addresses] of [_adapter_connect]; [error] is the
    variable of that name. *)
Fixpoint connect_loop (addresses : list AddrInfo) (error : option string)
  : M (option connect_error) :=
  match addresses with
  | [] =>
      ret (match error with
           | Some s => Some (ErrorText s)
           | None => None
           end)
  | sock_addr :: addresses' =>
      error <- _create_and_connect_to_socket sock_addr ;;
      if no_error error then
        socket_setblocking false ;;
        ret None
      else
        _cleanup_socket ;;
        connect_loop addresses' error
  end.

(** [_adapter_connect] *)
Definition _adapter_connect : M (option connect_error) :=
  script <- ask resolves ;;
  r <- resolve_loop (S (List.length script)) ;;
  match r with
  | inr error => ret (Some (ErrorObject error))
  | inl addresses =>
      connect_loop addresses (Some "No socket addresses available"%string)
  end.

(** The inner [while True] of [_handle_write]: [send] again while it is
    interrupted. *)
Fixpoint send_retrying (fuel : nat) (frame : bytes) : M Z :=
  match fuel with
  | O => pending
  | S fuel' =>
      try_except (socket_send frame)
        (fun ex =>
           match ex with
           | OSExc error =>
               if errno_is error errno.EINTR then Some (send_retrying fuel' frame)
               else None
           | _ => None
           end)
  end.

(** The [while self.outbound_buffer] of [_handle_write].  The two [except]
    clauses of the enclosing [try] are placed where its only raising
    statement, the [send], is; [frame] and [bytes_written] are then those
    of the turn that raised.  The value is [None] where the method returns
    that of [_handle_error]. *)
Fixpoint write_loop (fuel : nat) (bytes_written : Z) : M (option Z) :=
  match fuel with
  | O => pending
  | S fuel' =>
      buffer <- gets outbound_buffer ;;
      match buffer with
      | [] => ret (Some bytes_written)
      | frame :: rest =>
          update_self (with_outbound_buffer rest) ;;
          script <- ask sends ;;
          r <- attempt (send_retrying (S (List.length script)) frame) ;;
          match r with
          | inl bw =>
              let bytes_written := bytes_written + bw in
              if bw <? len frame then
                log DEBUG "Partial write, requeing remaining data" ;;
                q <- gets outbound_buffer ;;
                update_self (with_outbound_buffer (slice_from frame bw :: q)) ;;
                ret (Some bytes_written)
              else write_loop fuel' bytes_written
          | inr (OSExc error) =>
              if is_timeout error then
                log DEBUG "socket timeout, requeuing frame" ;;
                q <- gets outbound_buffer ;;
                update_self (with_outbound_buffer (frame :: q)) ;;
                _handle_timeout ;;
                ret (Some bytes_written)
              else if errno_is error errno.EAGAIN || errno_is error errno.EWOULDBLOCK then
                log DEBUG "Would block, requeuing frame" ;;
                q <- gets outbound_buffer ;;
                update_self (with_outbound_buffer (frame :: q)) ;;
                ret (Some bytes_written)
              else
                _handle_error (ErrExc error) ;;
                ret None
          | inr ex => raise ex
          end
      end
  end.

(** [_handle_write] *)
Definition _handle_write : M (option Z) :=
  script <- ask sends ;;
  write_loop (S (List.length script)) 0.

(** [_flush_outbound] *)
Definition _flush_outbound : M unit :=
  _handle_write ;;
  _manage_event_state.

(** The [while True] of [_handle_read]: [read] or [recv] again while it is
    interrupted. *)
Fixpoint recv_retrying (fuel : nat) : M bytes :=
  match fuel with
  | O => pending
  | S fuel' =>
      try_except socket_recv
        (fun ex =>
           match ex with
           | OSExc error =>
               if errno_is error errno.EINTR then Some (recv_retrying fuel')
               else None
           | _ => None
           end)
  end.

(** [_handle_read]: the number of bytes, or [None] where the method returns
    the value of [_handle_error] or [_handle_disconnect]. *)
Definition _handle_read : M (option Z) :=
  script <- ask recvs ;;
  r <- attempt (recv_retrying (S (List.length script))) ;;
  match r with
  | inr (OSExc error) =>
      if is_timeout error then
        _handle_timeout ;;
        ret (Some 0)
      else if is_SSLError error then
        if arg0_is error ssl.SSL_ERROR_WANT_READ then ret (Some 0)
        else _handle_error (ErrExc error) ;; ret None
      else if errno_is error errno.EAGAIN || errno_is error errno.EWOULDBLOCK then
        ret (Some 0)
      else _handle_error (ErrExc error) ;; ret None
  | inr ex => raise ex
  | inl data =>
      match data with
      | [] =>
          log ERROR_ "Read empty data, calling disconnect" ;;
          _handle_disconnect ;;
          ret None
      | _ :: _ =>
          emit (OnDataAvailable data) ;;
          ret (Some (len data))
      end
  end.

(** [self.socket and ...]: whether the socket is still there. *)
Definition has_socket : M bool :=
  s <- gets socket ;;
  ret (match s with Some _ => true | None => false end).

(** [if cond: body] *)
Definition when (cond : bool) (body : M unit) : M unit :=
  if cond then body else ret tt.

(** [_handle_events] *)
Definition _handle_events (fd events : Z) (error : error_value) (write_only : bool)
  : M unit :=
  open <- has_socket ;;
  if negb open then
    log ERROR_ "Received events on closed socket: %r"
  else
    open <- has_socket ;;
    when (open && truthy (Z.land events WRITE))
      (_handle_write ;; _manage_event_state) ;;
    open <- has_socket ;;
    when (open && negb write_only && truthy (Z.land events READ))
      (_handle_read ;; ret tt) ;;
    open <- has_socket ;;
    when (open && write_only && truthy (Z.land events READ)
            && truthy (Z.land events ERROR))
      (log ERROR_ "BAD libc:  Write-Only but Read+Error. Assume socket disconnected." ;;
       _handle_disconnect) ;;
    open <- has_socket ;;
    when (open && truthy (Z.land events ERROR))
      (log ERROR_ "Error event %r, %r" ;;
       _handle_error error).


(** * Definitions used by the statements *)

(** The attributes after [_init_connection_state]: no socket, the base
    mask, and the phase and the queue as [super_init_connection_state]
    leaves them. *)
Definition reset (c : Connection) : Connection :=
  mkConnection (params_ssl c) (ioloop c) (stop_ioloop_on_close c) None
    (Z.lor READ ERROR) (Z.lor READ ERROR) Closed [].

(** The calls by which [_cleanup_socket] disposes of the socket. *)
Definition closing_calls (s : option Socket) : list event :=
  match s with
  | Some sock => [SockShutdown (fileno sock); SockClose (fileno sock)]
  | None => []
  end.

(** The call by which [_handle_ioloop_stop] stops the reactor. *)
Definition stopping_calls (c : Connection) : list event :=
  if stop_ioloop_on_close c && ioloop c then [IoloopStop] else [].

(** The state in which [_adapter_disconnect] consults the phase: the
    heartbeat timer is cancelled and the socket is disposed of. *)
Definition before_check (st : State) : State :=
  mkState (with_socket None (self st)) (world st)
    (trace st ++ RemoveHeartbeat :: closing_calls (socket (self st))).

(** The state after a call to the logger. *)
Definition logged (st : State) (lv : level) (msg : string) : State :=
  mkState (self st) (world st) (trace st ++ [Log lv msg]).

(** What the phase at disconnect makes [_check_state_on_disconnect] raise
    and log. *)
Definition phase_signal (p : ConnectionPhase) : option exn :=
  match p with
  | ProtocolHandshake => Some IncompatibleProtocolError
  | Authenticating => Some ProbableAuthenticationError
  | Tuning => Some ProbableAccessDeniedError
  | _ => None
  end.

Definition phase_log (p : ConnectionPhase) : list event :=
  match p with
  | ProtocolHandshake => [Log ERROR_ "Incompatible Protocol Versions"]
  | Authenticating =>
      [Log ERROR_ "Socket closed while authenticating indicating a probable authentication error"]
  | Tuning =>
      [Log ERROR_ "Socket closed while tuning the connection indicating a probable permission error when accessing a virtual host"]
  | Open => [Log WARNING "Socket closed when connection was open"]
  | Resolving | Connecting => [Log WARNING "Unknown state on disconnect: %i"]
  | Closing | Closed => []
  end.

Definition result_of (signal : option exn) : Res unit :=
  match signal with Some e => Raise e | None => Ok tt end.

(** The events of the whole disconnect sequence, from the attributes it
    starts with. *)
Definition disconnect_calls (c : Connection) : list event :=
  RemoveHeartbeat :: closing_calls (socket c)
    ++ phase_log (connection_state c) ++ stopping_calls c.

(** A system call that is interrupted: [error.errno == errno.EINTR]. *)
Definition interrupted (e : OSErr) : Prop := errno_is e errno.EINTR = true.

(** An outcome that ends the retrying of an interrupted call. *)
Definition final {A} (o : outcome A) : Prop :=
  match o with
  | Done _ => True
  | Fails e => errno_is e errno.EINTR = false
  end.

(** What a system call with outcome [o] gives its caller. *)
Definition delivered {A} (o : outcome A) : Res A :=
  match o with
  | Done a => Ok a
  | Fails e => Raise (OSExc e)
  end.

(** ** Sample inputs *)

Definition sample_socket : Socket := mkSocket 7 2 false false None.

Definition sample_world : World :=
  mkWorld [] [] [] [] [] 8 (fun _ => None).

Definition sample_connection : Connection :=
  mkConnection false true true (Some sample_socket)
    (Z.lor READ ERROR) (Z.lor READ ERROR) Open [].

Definition frame_A : bytes := [Byte.x41; Byte.x42; Byte.x43].
Definition frame_B : bytes := [Byte.x44; Byte.x45].
Definition frame_C : bytes := [Byte.x46].

Definition eintr : OSErr :=
  mkOSErr OSError (Some errno.EINTR) (ArgInt errno.EINTR)
    "[Errno 4] Interrupted system call".

(** ** Counting calls in a trace *)

Definition count (p : event -> bool) (tr : list event) : nat :=
  List.length (filter p tr).

Definition is_RemoveHeartbeat (e : event) : bool :=
  match e with RemoveHeartbeat => true | _ => false end.

Definition is_SockClose (e : event) : bool :=
  match e with SockClose _ => true | _ => false end.

Definition is_SockSend (e : event) : bool :=
  match e with SockSend _ _ => true | _ => false end.

Definition is_OnConnectionClosed (e : event) : bool :=
  match e with OnConnectionClosed => true | _ => false end.

(** [_on_connection_closed] is reached only when the disconnect sequence
    did not raise. *)
Definition closed_callback (p : ConnectionPhase) : list event :=
  match phase_signal p with
  | Some _ => []
  | None => [OnConnectionClosed]
  end.

(** ** More sample inputs *)

Definition tls_connection : Connection :=
  mkConnection true true true (Some sample_socket)
    (Z.lor READ ERROR) (Z.lor READ ERROR) Open [].

(** [ssl.SSLWantReadError] and [ssl.SSLWantWriteError] as the ssl module
    raises them: [errno] is [args[0]]. *)
Definition ssl_want_read : OSErr :=
  mkOSErr SSLError (Some ssl.SSL_ERROR_WANT_READ) (ArgInt ssl.SSL_ERROR_WANT_READ)
    "The operation did not complete (read) (_ssl.c:2427)".

Definition ssl_want_write : OSErr :=
  mkOSErr SSLError (Some ssl.SSL_ERROR_WANT_WRITE) (ArgInt ssl.SSL_ERROR_WANT_WRITE)
    "The operation did not complete (write) (_ssl.c:2427)".

Definition broken_pipe : OSErr :=
  mkOSErr OSError (Some errno.EPIPE) (ArgInt errno.EPIPE) "[Errno 32] Broken pipe".

Definition would_block : OSErr :=
  mkOSErr OSError (Some errno.EAGAIN) (ArgInt errno.EAGAIN)
    "[Errno 11] Resource temporarily unavailable".

Definition connection_timed_out : OSErr :=
  mkOSErr OSError (Some errno.ETIMEDOUT) (ArgInt errno.ETIMEDOUT)
    "[Errno 110] Connection timed out".

Definition authenticating_connection : Connection :=
  with_connection_state Authenticating sample_connection.

(** ** The event mask *)

(** [mask & bit] as a truth value. *)
Definition has (mask bit : Z) : bool := truthy (Z.land mask bit).




(** ** What may cross the public boundary *)

(** The phase-specific disconnect signals. *)
Definition disconnect_signal (e : exn) : Prop :=
  e = IncompatibleProtocolError
  \/ e = ProbableAuthenticationError
  \/ e = ProbableAccessDeniedError.

(** An error value that is [None], 0 or an exception object. *)
Definition not_an_error_number (error : error_value) : Prop :=
  forall n : Z, error = ErrInt n -> n = 0.

(** What the event handler relies on between its steps: a reactor is
    attached, and once the socket is gone the queue is empty and the mask
    is without WRITE. *)
Definition settled (c : Connection) : Prop :=
  ioloop c = true
  /\ (socket c = None ->
      outbound_buffer c = [] /\ has (event_state c) WRITE = false).

(** The script of the sends or that of the receives is used up. *)
Definition starved (w : World) : Prop := sends w = [] \/ recvs w = [].

(** The outcome of a step of the event handler: it returns in a settled
    state, or raises a disconnect signal or [socket.timeout], or waits for
    an outcome that the script of the world does not have. *)
Definition contained {A} (r : Res A * State) : Prop :=
  match r with
  | (Ok _, st') => settled (self st')
  | (Raise e, _) => disconnect_signal e \/ e = TimeoutRaised
  | (Pending, st') => starved (world st')
  end.

(** The ways the error handler ends: it leaves the attributes as they are,
    or it has run the disconnect sequence, which returned or raised. *)
Definition handled (st : State) (r : Res unit * State) : Prop :=
  (exists tr, r = (Ok tt, mkState (self st) (world st) tr))
  \/ (exists tr, r = (Ok tt, mkState (reset (self st)) (world st) tr))
  \/ (exists e st', r = (Raise e, st')
                    /\ (disconnect_signal e \/ e = TimeoutRaised)).

(** [bool(self.socket)] *)
Definition socket_open (c : Connection) : bool :=
  match socket c with Some _ => true | None => false end.

(** ** The dial *)

(** What the network does to one candidate: the connect fails, or it
    succeeds and the TLS handshake (when there is one) takes some steps
    that want to read or to write and a last step that ends it. *)
Inductive answer :=
| ConnectFails (e : OSErr)
| Connects (wants : list OSErr) (last : outcome unit).

Definition connect_outcome (att : answer) : outcome unit :=
  match att with
  | ConnectFails e => Fails e
  | Connects _ _ => Done tt
  end.

Definition handshake_outcomes (use_ssl : bool) (att : answer) : list (outcome unit) :=
  match att with
  | ConnectFails _ => []
  | Connects wants last =>
      if use_ssl && DO_HANDSHAKE then map Fails wants ++ [last] else []
  end.

(** A handshake step that wants to read or to write. *)
Definition wants_io (e : OSErr) : Prop :=
  is_SSLError e = true
  /\ (arg0_is e ssl.SSL_ERROR_WANT_READ = true
      \/ arg0_is e ssl.SSL_ERROR_WANT_WRITE = true).

(** A handshake step that ends the handshake: it succeeds, or fails with
    another SSL error. *)
Definition ends_handshake (o : outcome unit) : Prop :=
  match o with
  | Done _ => True
  | Fails e =>
      is_SSLError e = true
      /\ arg0_is e ssl.SSL_ERROR_WANT_READ = false
      /\ arg0_is e ssl.SSL_ERROR_WANT_WRITE = false
  end.

Definition valid_answer (att : answer) : Prop :=
  match att with
  | ConnectFails _ => True
  | Connects wants last => Forall wants_io wants /\ ends_handshake last
  end.

(** The error string of a candidate, [None] when it is connected. *)
Definition candidate_error (use_ssl : bool) (cand : AddrInfo * answer) : option string :=
  match snd cand with
  | ConnectFails e =>
      Some (if is_timeout e then timeout_message (fst cand)
            else failure_message (fst cand) e)
  | Connects _ last =>
      if use_ssl && DO_HANDSHAKE then
        match last with
        | Done _ => None
        | Fails e => Some (ssl_failure_message (fst cand) e)
        end
      else None
  end.

Definition fails (use_ssl : bool) (cand : AddrInfo * answer) : Prop :=
  candidate_error use_ssl cand <> None.

(** The error string of the last candidate; the message of
    [_adapter_connect] when there is no candidate. *)
Definition last_error (use_ssl : bool) (cands : list (AddrInfo * answer)) : string :=
  match List.last (map (candidate_error use_ssl) cands)
          (Some "No socket addresses available"%string) with
  | Some error => error
  | None => EmptyString
  end.

(** The calls that make, dial and dispose of sockets. *)
Definition is_dial_call (e : event) : bool :=
  match e with
  | SockCreate _ _ | SockConnect _ _ | SockClose _ | SockSetBlocking _ _ => true
  | _ => false
  end.

(** The dial calls of candidates that all fail, the first on descriptor
    [fd]: each socket is closed before the next is made. *)
Fixpoint failed_calls (fd : Z) (cands : list (AddrInfo * answer)) : list event :=
  match cands with
  | [] => []
  | cand :: cands' =>
      SockCreate fd (ai_family (fst cand)) :: SockConnect fd (fst cand)
        :: SockClose fd :: failed_calls (fd + 1) cands'
  end.

(** The dial calls of the candidate that connects. *)
Definition connected_calls (fd : Z) (a : AddrInfo) : list event :=
  [SockCreate fd (ai_family a); SockConnect fd a; SockSetBlocking fd false].

(** The resolution returns [cands] after the tries in [intr], and the
    network answers the candidates as their answers say. *)
Definition dial_script (st : State) (intr : list OSErr)
    (cands : list (AddrInfo * answer))
    (later_r : list (outcome (list AddrInfo)))
    (later_c later_h : list (outcome unit)) : Prop :=
  resolves (world st) = map Fails intr ++ Done (map fst cands) :: later_r
  /\ Forall interrupted intr
  /\ Forall (fun cand => valid_answer (snd cand)) cands
  /\ connects (world st) = map (fun cand => connect_outcome (snd cand)) cands ++ later_c
  /\ handshakes (world st) =
       List.concat (map (fun cand => handshake_outcomes (params_ssl (self st)) (snd cand)) cands)
         ++ later_h.

(** The socket of a candidate after [_create_and_connect_to_socket]. *)
Definition dialled_socket (use_ssl : bool) (fd : Z) (cand : AddrInfo * answer) : Socket :=
  mkSocket fd (ai_family (fst cand)) use_ssl true
    (match snd cand with
     | ConnectFails _ => None
     | Connects _ _ => Some (fst cand)
     end).

(** Four resolved addresses: the first times out, the second is refused,
    the third connects; the fourth would connect too. *)
Definition addr_1 : AddrInfo := mkAddrInfo 10 "::1" 5672.
Definition addr_2 : AddrInfo := mkAddrInfo 2 "10.0.0.1" 5672.
Definition addr_3 : AddrInfo := mkAddrInfo 2 "10.0.0.2" 5672.
Definition addr_4 : AddrInfo := mkAddrInfo 2 "10.0.0.3" 5672.

Definition connect_timed_out : OSErr :=
  mkOSErr socket_timeout None (ArgStr "timed out") "timed out".

Definition connection_refused : OSErr :=
  mkOSErr OSError (Some 111) (ArgInt 111) "[Errno 111] Connection refused".

Definition sample_candidates : list (AddrInfo * answer) :=
  [(addr_1, ConnectFails connect_timed_out);
   (addr_2, ConnectFails connection_refused);
   (addr_3, Connects [] (Done tt));
   (addr_4, Connects [] (Done tt))].

Definition dial_world : World :=
  mkWorld [Fails eintr; Done [addr_1; addr_2; addr_3; addr_4]]
    [Fails connect_timed_out; Fails connection_refused; Done tt; Done tt]
    [] [] [] 8 (fun _ => None).

Definition closed_connection : Connection :=
  mkConnection false true true None (Z.lor READ ERROR) (Z.lor READ ERROR) Closed [].





(** A step that returns has left the attributes as they were or has run the
    disconnect sequence. *)
Definition untouched {A} (c : Connection) (r : Res A * State) : Prop :=
  match r with
  | (Ok _, st') => self st' = c \/ self st' = reset c
  | _ => True
  end.




(** * Definitions for further properties *)

(** ** The write path *)

(** The bytes of a queue, in the order in which they are to be sent. *)
Definition flat (q : list bytes) : bytes := List.concat q.

(** The number of bytes of some frames. *)
Definition total (frames : list bytes) : Z :=
  fold_right (fun frame n => len frame + n) 0 frames.

(** Sends that take each of the frames whole. *)
Definition full_sends (frames : list bytes) : list (outcome Z) :=
  map (fun frame => Done (len frame)) frames.

(** The calls of [send], one for each of the frames. *)
Definition send_calls (fd : Z) (frames : list bytes) : list event :=
  map (SockSend fd) frames.

(** An error of [send] after which [_handle_write] puts the frame back:
    a [socket.timeout], or an [OSError] with [EAGAIN] or [EWOULDBLOCK]. *)
Definition blocks (e : OSErr) : Prop :=
  errno_is e errno.EINTR = false
  /\ (is_timeout e = true
      \/ (errno_is e errno.EAGAIN || errno_is e errno.EWOULDBLOCK) = true).

(** What [_handle_write] logs when it puts the frame back. *)
Definition requeue_log (e : OSErr) : event :=
  if is_timeout e then Log DEBUG "socket timeout, requeuing frame"
  else Log DEBUG "Would block, requeuing frame".

(** The queue [q'] holds a tail of the bytes of the queue [q]. *)
Definition tail_of (q q' : list bytes) : Prop :=
  exists sent : bytes, flat q = sent ++ flat q'.

(** A step that returns has left in the queue a tail of the bytes that
    were pending in [q]. *)
Definition tails {A} (q : list bytes) (r : Res A * State) : Prop :=
  match r with
  | (Ok _, st') => tail_of q (outbound_buffer (self st'))
  | _ => True
  end.

(** ** Closing the socket *)

(** The calls of [close] among some events. *)
Definition closes (evs : list event) : nat := count is_SockClose evs.

(** From a state with socket [s0] and trace [tr0] to the state [st]: the
    socket was not closed and [self.socket] is what it was, or the socket
    there was has been closed once and [self.socket] is [None]. *)
Definition closed_at_most_once (s0 : option Socket) (tr0 : list event)
    (st : State) : Prop :=
  exists evs : list event,
    trace st = tr0 ++ evs
    /\ ((closes evs = 0%nat /\ socket (self st) = s0)
        \/ (closes evs = 1%nat /\ socket (self st) = None /\ s0 <> None)).

Definition once {A} (s0 : option Socket) (tr0 : list event)
    (r : Res A * State) : Prop :=
  match r with
  | (Pending, _) => True
  | (_, st') => closed_at_most_once s0 tr0 st'
  end.

(** A computation that, from every state, closes the socket at most once
    and forgets it when it does. *)
Definition steady {A} (m : M A) : Prop :=
  forall st : State, once (socket (self st)) (trace st) (m st).

(** ** The read path *)

(** An error of [recv] after which the read handler returns 0 and waits
    for the next event: [socket.timeout], an [ssl.SSLError] whose first
    argument is [SSL_ERROR_WANT_READ], or another [socket.error] with
    [EAGAIN] or [EWOULDBLOCK]. *)
Definition waits (e : OSErr) : Prop :=
  errno_is e errno.EINTR = false
  /\ match err_class e with
     | socket_timeout => True
     | SSLError => arg0_is e ssl.SSL_ERROR_WANT_READ = true
     | OSError =>
         (errno_is e errno.EAGAIN || errno_is e errno.EWOULDBLOCK) = true
     end.

Definition recv_calls (fd : Z) (n : nat) : list event := repeat (SockRecv fd) n.

(** ** The error handler *)

(** An error value in which [_handle_error] finds no error: [None], the
    integer 0, or an exception whose [errno] is [None] or 0 (and whose text
    does not say 'timed out'). *)
Definition codeless (error : error_value) : Prop :=
  match error with
  | ErrNone => True
  | ErrInt n => n = 0
  | ErrExc e =>
      no_code (err_errno e) = true
      /\ str_contains "timed out" (err_text e) = false
  end.

(** An exception with an error number that is not on the ignore list, and
    whose text does not say 'timed out'. *)
Definition fatal (e : OSErr) : Prop :=
  no_code (err_errno e) = false
  /\ mem (code_of (err_errno e)) ERRORS_TO_IGNORE = false
  /\ str_contains "timed out" (err_text e) = false.

(** What [_handle_error] logs before it disconnects. *)
Definition error_log (use_ssl : bool) (e : OSErr) : list event :=
  if mem (code_of (err_errno e)) ERRORS_TO_ABORT then
    [Log ERROR_ "Fatal Socket Error: %r"]
  else if use_ssl && is_SSLError e then
    if arg0_is e ssl.SSL_ERROR_WANT_READ then []
    else if arg0_is e ssl.SSL_ERROR_WANT_WRITE then []
    else [Log ERROR_ "SSL Socket error: %r"]
  else [Log ERROR_ "Socket Error: %s"].

(** ** One dispatch of the event handler *)

(** What [_manage_event_state] does once the queue is empty: a mask with
    WRITE goes back to the base mask and the reactor is told. *)
Definition flushed_mask (c : Connection) : Z :=
  if has (event_state c) WRITE then base_events c else event_state c.

Definition mask_update (c : Connection) (fd : Z) : list event :=
  if has (event_state c) WRITE then [UpdateHandler fd (base_events c)] else [].

(** What a handler gives back where it returns the value of the
    disconnect sequence: the error of the phase is raised, or the value is
    [None]. *)
Definition disconnected {A} (p : ConnectionPhase) : Res (option A) :=
  match phase_signal p with
  | Some e => Raise e
  | None => Ok None
  end.

(** ** Sample inputs for the further properties *)

(** Three frames are queued on the sample connection. *)
Definition loaded_connection : Connection :=
  with_outbound_buffer [frame_A; frame_B; frame_C] sample_connection.

(** The same, with write interest registered. *)
Definition writing_connection : Connection :=
  with_event_state (Z.lor (Z.lor READ ERROR) WRITE) loaded_connection.

(** An [OSError] raised without an error number. *)
Definition bare_error : OSErr :=
  mkOSErr OSError None (ArgStr "socket closed") "socket closed".

Definition connection_reset : OSErr :=
  mkOSErr OSError (Some 104) (ArgInt 104) "[Errno 104] Connection reset by peer".

Definition data_in : bytes := [Byte.x01; Byte.x00; Byte.x00; Byte.xce].



(** The resolver is interrupted once and then fails. *)
Definition name_not_known : OSErr :=
  mkOSErr OSError (Some (-2)) (ArgInt (-2)) "[Errno -2] Name or service not known".

Definition unresolved_world : World :=
  with_resolves [Fails eintr; Fails name_not_known] sample_world.


(** * Properties *)

(** Unfolds the monad and the primitive operations. *)
Ltac run :=
  cbv [bind ret raise pending try_except try_finally attempt gets ask emit log
       update_self update_world the_socket take when has_socket
       socket_shutdown socket_close socket_send socket_recv socket_connect
       socket_do_handshake socket_setblocking getaddrinfo ioloop_update_handler];
  cbn.

Arguments _handle_error : simpl never.
Arguments _handle_disconnect : simpl never.
Arguments _adapter_disconnect : simpl never.
Arguments _check_state_on_disconnect : simpl never.
Arguments _manage_event_state : simpl never.
Arguments _handle_write : simpl never.
Arguments _handle_read : simpl never.
Arguments disconnect_calls : simpl never.

(** Brings appended traces to one shape. *)
Ltac norm_app :=
  repeat (rewrite <- app_assoc || rewrite <- app_comm_cons); cbn [app].

(** ** The disconnect sequence *)

(** C2: at disconnect time the phase decides the failure: the protocol
    handshake raises IncompatibleProtocolError, the authenticating phase
    ProbableAuthenticationError, the tuning phase ProbableAccessDeniedError;
    an open connection raises nothing and only logs; a phase that is neither
    closed nor closing (and none of the former) only logs the unknown-state
    warning; closed and closing do nothing. *)
Theorem check_state_on_disconnect_mapping : forall st : State,
  _check_state_on_disconnect st =
  match connection_state (self st) with
  | ProtocolHandshake =>
      (Raise IncompatibleProtocolError,
       logged st ERROR_ "Incompatible Protocol Versions")
  | Authenticating =>
      (Raise ProbableAuthenticationError,
       logged st ERROR_ "Socket closed while authenticating indicating a probable authentication error")
  | Tuning =>
      (Raise ProbableAccessDeniedError,
       logged st ERROR_ "Socket closed while tuning the connection indicating a probable permission error when accessing a virtual host")
  | Open => (Ok tt, logged st WARNING "Socket closed when connection was open")
  | Resolving | Connecting =>
      (Ok tt, logged st WARNING "Unknown state on disconnect: %i")
  | Closing | Closed => (Ok tt, st)
  end.
Proof.
  intros [c w tr].
  unfold _check_state_on_disconnect, logged, is_open, is_closed, is_closing; run.
  destruct (connection_state c); reflexivity.
Qed.

Lemma check_state_on_disconnect_run : forall st : State,
  _check_state_on_disconnect st =
  (result_of (phase_signal (connection_state (self st))),
   mkState (self st) (world st)
     (trace st ++ phase_log (connection_state (self st)))).
Proof.
  intros [c w tr].
  unfold _check_state_on_disconnect, is_open, is_closed, is_closing; run.
  destruct (connection_state c); cbn; rewrite ?app_nil_r; reflexivity.
Qed.

(** The whole effect of the disconnect sequence. *)
Lemma adapter_disconnect_effect : forall st : State,
  _adapter_disconnect st =
  (result_of (phase_signal (connection_state (self st))),
   mkState (reset (self st)) (world st)
     (trace st ++ disconnect_calls (self st))).
Proof.
  intros [c w tr].
  unfold _adapter_disconnect, _cleanup_socket, _handle_ioloop_stop,
    _init_connection_state, super_init_connection_state,
    _check_state_on_disconnect, disconnect_calls, stopping_calls,
    closing_calls, reset, is_open, is_closed, is_closing.
  destruct c as [ssl_ loop stop s base es phase q]; run.
  destruct s as [sock|]; run.
  - destruct (shutdown_error w (fileno sock)); run;
      destruct phase, stop, loop; cbn; rewrite <- ?app_assoc; reflexivity.
  - destruct phase, stop, loop; cbn; rewrite <- ?app_assoc; reflexivity.
Qed.

(** C9: every run of the disconnect sequence cancels the heartbeat timer,
    then shuts down and closes the socket (an error of the shutdown is
    swallowed), then consults the phase; whether or not that check raises,
    the reactor is then stopped if so configured and the connection state is
    reset (no socket, base mask, empty queue, phase closed); the sequence
    returns or raises what the phase check did. *)
Theorem adapter_disconnect_sequence : forall st : State,
  _adapter_disconnect st =
    (fst (_check_state_on_disconnect (before_check st)),
     mkState (reset (self st)) (world st)
       (trace (snd (_check_state_on_disconnect (before_check st)))
          ++ stopping_calls (self st)))
  /\ trace (snd (_check_state_on_disconnect (before_check st))) =
       trace st ++ RemoveHeartbeat :: closing_calls (socket (self st))
         ++ phase_log (connection_state (self st))
  /\ fst (_check_state_on_disconnect (before_check st)) =
       result_of (phase_signal (connection_state (self st))).
Proof.
  intros st.
  rewrite adapter_disconnect_effect, check_state_on_disconnect_run.
  destruct st as [c w tr]; unfold before_check, disconnect_calls; cbn.
  repeat split; norm_app; reflexivity.
Qed.

(** ** The write path *)

Lemma send_retrying_final :
  forall (intr : list OSErr) (fuel : nat) (st : State) (sock : Socket)
         (frame : bytes) (o : outcome Z) (later : list (outcome Z)),
    socket (self st) = Some sock ->
    Forall interrupted intr ->
    final o ->
    sends (world st) = map Fails intr ++ o :: later ->
    (List.length intr < fuel)%nat ->
    send_retrying fuel frame st =
    (delivered o,
     mkState (self st) (with_sends later (world st))
       (trace st ++ repeat (SockSend (fileno sock) frame) (S (List.length intr)))).
Proof.
  induction intr as [|e intr IH]; intros fuel st sock frame o later Hs Hi Ho Hw Hf.
  - destruct fuel as [|fuel]; [cbn in Hf; lia|].
    destruct st as [c w tr]; cbn in *.
    unfold send_retrying; run. rewrite Hs; cbn. rewrite Hw; cbn.
    destruct o as [bw|e]; cbn; [reflexivity|].
    cbn in Ho. rewrite Ho. reflexivity.
  - destruct fuel as [|fuel]; [cbn in Hf; lia|].
    inversion Hi as [|? ? He Hi']; subst.
    destruct st as [c w tr]; cbn in *.
    cbn [send_retrying]; run. rewrite Hs; cbn. rewrite Hw; cbn.
    unfold interrupted in He. rewrite He.
    erewrite IH with (sock := sock) (o := o) (later := later); cbn; eauto; try lia.
    destruct w; cbn. rewrite <- app_assoc. reflexivity.
Qed.

Arguments send_retrying : simpl never.

(** C1: with the queue [A :: rest] (the claim's [[A,B,C]]) and a send of
    [A] that, after any number of interrupted tries, transmits only the
    first [k] bytes, [0 <= k < len(A)], one call of the write handler
    returns [k] and leaves the queue [A[k:] :: rest]: the unsent suffix is
    back at the front, only [A] was handed to the socket, no frame is lost
    or duplicated. *)
Theorem handle_write_partial_send :
  forall (st : State) (sock : Socket) (A : bytes) (rest : list bytes)
         (intr : list OSErr) (k : Z) (later : list (outcome Z)),
    socket (self st) = Some sock ->
    outbound_buffer (self st) = A :: rest ->
    Forall interrupted intr ->
    sends (world st) = map Fails intr ++ Done k :: later ->
    0 <= k < len A ->
    _handle_write st =
    (Ok (Some k),
     mkState (with_outbound_buffer (skipn (Z.to_nat k) A :: rest) (self st))
       (with_sends later (world st))
       (trace st
          ++ repeat (SockSend (fileno sock) A) (S (List.length intr))
          ++ [Log DEBUG "Partial write, requeing remaining data"])).
Proof.
  intros [c w tr] sock A rest intr k later Hs Hq Hi Hw Hk; cbn in *.
  unfold _handle_write; run. cbn [write_loop]; run.
  rewrite Hq; cbn.
  erewrite send_retrying_final with (sock := sock) (intr := intr)
    (o := Done k) (later := later); cbn; eauto.
  - destruct (Z.ltb_spec k (len A)) as [_|Hge]; [|lia].
    unfold slice_from. destruct (Z.leb_spec 0 k) as [_|Hneg]; [|lia].
    destruct c; cbn in *. norm_app. reflexivity.
  - rewrite Hw, length_app, length_map. cbn. lia.
Qed.

(** The claim's own queue: [A], [B], [C], two bytes of [A] still unsent
    after a send of one byte. *)
Lemma handle_write_partial_send_witness :
  _handle_write
    (mkState (with_outbound_buffer [frame_A; frame_B; frame_C] sample_connection)
       (with_sends [Done 1] sample_world) [])
  = (Ok (Some 1),
     mkState (with_outbound_buffer [[Byte.x42; Byte.x43]; frame_B; frame_C]
                sample_connection)
       sample_world
       [SockSend 7 frame_A; Log DEBUG "Partial write, requeing remaining data"]).
Proof.
  apply (handle_write_partial_send
           (mkState (with_outbound_buffer [frame_A; frame_B; frame_C] sample_connection)
              (with_sends [Done 1] sample_world) [])
           sample_socket frame_A [frame_B; frame_C] [] 1 []);
    [reflexivity | reflexivity | constructor | reflexivity | cbn; lia].
Defined.

(** ** The error handler *)

Lemma truthy_true : forall z, z <> 0 -> truthy z = true.
Proof. intros z H. unfold truthy. destruct (Z.eqb_spec z 0); [contradiction|reflexivity]. Qed.

Lemma handle_disconnect_effect : forall st : State,
  _handle_disconnect st =
  (result_of (phase_signal (connection_state (self st))),
   mkState (reset (self st)) (world st)
     (trace st ++ disconnect_calls (self st)
        ++ closed_callback (connection_state (self st)))).
Proof.
  intros st. unfold _handle_disconnect, bind.
  rewrite adapter_disconnect_effect. unfold closed_callback.
  destruct (phase_signal (connection_state (self st))); cbn.
  - rewrite app_nil_r. reflexivity.
  - unfold emit; cbn. unfold disconnect_calls. norm_app. reflexivity.
Qed.

(** C3, at the failing input: TLS is enabled, the socket is open, the phase
    is open; the error handler receives the SSL want-read (want-write)
    error.  It sets the mask hint and then goes on to the disconnect
    sequence: the socket is closed, the state reset (the hint with it) and
    the connection-closed callback invoked. *)
Theorem handle_error_ssl_want_disconnects :
  _handle_error (ErrExc ssl_want_read) (mkState tls_connection sample_world [])
  = (Ok tt,
     mkState (reset tls_connection) sample_world
       [RemoveHeartbeat; SockShutdown 7; SockClose 7;
        Log WARNING "Socket closed when connection was open";
        IoloopStop; OnConnectionClosed])
  /\
  _handle_error (ErrExc ssl_want_write) (mkState tls_connection sample_world [])
  = (Ok tt,
     mkState (reset tls_connection) sample_world
       [RemoveHeartbeat; SockShutdown 7; SockClose 7;
        Log WARNING "Socket closed when connection was open";
        IoloopStop; OnConnectionClosed]).
Proof. split; reflexivity. Qed.

Lemma count_app : forall p l1 l2, count p (l1 ++ l2) = (count p l1 + count p l2)%nat.
Proof. intros. unfold count. rewrite filter_app, length_app. reflexivity. Qed.

Lemma count_phase_log : forall p ph,
  (forall lv msg, p (Log lv msg) = false) -> count p (phase_log ph) = 0%nat.
Proof. intros p ph H. destruct ph; cbn; rewrite ?H; reflexivity. Qed.

Lemma count_stopping_calls : forall p c,
  p IoloopStop = false -> count p (stopping_calls c) = 0%nat.
Proof.
  intros p c H. unfold stopping_calls.
  destruct (stop_ioloop_on_close c && ioloop c); cbn; rewrite ?H; reflexivity.
Qed.

Lemma count_closed_callback : forall p ph,
  p OnConnectionClosed = false -> count p (closed_callback ph) = 0%nat.
Proof.
  intros p ph H. unfold closed_callback.
  destruct (phase_signal ph); cbn; rewrite ?H; reflexivity.
Qed.

Lemma count_cons : forall p x l,
  count p (x :: l) = ((if p x then 1 else 0) + count p l)%nat.
Proof. intros. unfold count. cbn. destruct (p x); reflexivity. Qed.

Lemma count_nil : forall p, count p [] = 0%nat.
Proof. reflexivity. Qed.

(** Counts the calls of one kind in a trace of the disconnect sequence. *)
Ltac count_calls :=
  repeat (rewrite count_app || rewrite count_cons || rewrite count_nil
          || (rewrite count_phase_log by reflexivity)
          || (rewrite count_stopping_calls by reflexivity)
          || (rewrite count_closed_callback by reflexivity));
  cbn; try reflexivity.

(** The error handler on an error of the abort list. *)
Lemma abort_error_run : forall (st : State) (e : OSErr) (code : Z),
  In code ERRORS_TO_ABORT ->
  err_errno e = Some code ->
  str_contains "timed out" (err_text e) = false ->
  _handle_error (ErrExc e) st =
  (result_of (phase_signal (connection_state (self st))),
   mkState (reset (self st)) (world st)
     (trace st ++ Log ERROR_ "Fatal Socket Error: %r"
        :: disconnect_calls (self st)
        ++ closed_callback (connection_state (self st)))).
Proof.
  intros [c w tr] e code Hin He Ht.
  unfold _handle_error, timed_out_in_str, _get_error_code. rewrite Ht.
  unfold bind at 1, ret. rewrite He.
  assert (Hc : no_code (Some code) = false /\ mem (code_of (Some code)) ERRORS_TO_IGNORE = false
               /\ mem (code_of (Some code)) ERRORS_TO_ABORT = true).
  { cbn in Hin. destruct Hin as [<-|[<-|[<-|[]]]]; repeat split; reflexivity. }
  destruct Hc as (-> & -> & Hab).
  unfold bind at 1, gets at 1; cbn [self]. rewrite Hab.
  unfold bind, log, emit. rewrite handle_disconnect_effect. cbn.
  norm_app. reflexivity.
Qed.

(** C5, as the code has it: for every code of the abort list ([EBADF],
    [ECONNABORTED], [EPIPE]), handling an error that carries that code (and
    whose text does not hold 'timed out') with the socket open, by the error
    handler or by the event handler on an ERROR event, runs the disconnect
    sequence once and leaves no socket; the connection-closed callback is
    invoked once when the phase is not the protocol handshake,
    authenticating or tuning, and in these three phases the error of the
    phase is raised and the callback is not invoked. *)
Theorem handle_error_abort :
  forall (st : State) (sock : Socket) (e : OSErr) (code : Z),
    socket (self st) = Some sock ->
    In code ERRORS_TO_ABORT ->
    err_errno e = Some code ->
    str_contains "timed out" (err_text e) = false ->
    exists calls : list event,
      _handle_error (ErrExc e) st =
        (result_of (phase_signal (connection_state (self st))),
         mkState (reset (self st)) (world st) (trace st ++ calls))
      /\ (forall (fd events : Z) (write_only : bool),
            Z.land events ERROR <> 0 ->
            Z.land events WRITE = 0 ->
            Z.land events READ = 0 ->
            _handle_events fd events (ErrExc e) write_only st =
              (result_of (phase_signal (connection_state (self st))),
               mkState (reset (self st)) (world st)
                 (trace st ++ Log ERROR_ "Error event %r, %r" :: calls)))
      /\ socket (reset (self st)) = None
      /\ count is_RemoveHeartbeat calls = 1%nat
      /\ count is_SockClose calls = 1%nat
      /\ count is_OnConnectionClosed calls =
           match phase_signal (connection_state (self st)) with
           | Some _ => 0%nat
           | None => 1%nat
           end.
Proof.
  intros st sock e code Hs Hin He Ht.
  eexists. split; [apply (abort_error_run st e code Hin He Ht)|].
  split.
  { intros fd events wo Herr Hw Hr. destruct st as [c w tr]; cbn in Hs.
    unfold _handle_events. rewrite Hw, Hr, (truthy_true _ Herr).
    change (truthy 0) with false.
    unfold when; run.
    repeat (rewrite ?Hs, ?andb_false_r; cbn).
    rewrite (abort_error_run _ e code Hin He Ht); cbn.
    destruct (phase_signal (connection_state c)); cbn; norm_app; reflexivity. }
  split; [reflexivity|].
  unfold disconnect_calls. rewrite Hs. cbn [closing_calls].
  repeat split; count_calls.
  unfold closed_callback.
  destruct (phase_signal (connection_state (self st))); reflexivity.
Qed.

Lemma handle_error_abort_witness :
  socket (self (mkState sample_connection sample_world [])) = Some sample_socket
  /\ In errno.EPIPE ERRORS_TO_ABORT
  /\ exists calls : list event,
       _handle_error (ErrExc broken_pipe) (mkState sample_connection sample_world []) =
         (Ok tt, mkState (reset sample_connection) sample_world calls)
       /\ (forall (fd events : Z) (write_only : bool),
             Z.land events ERROR <> 0 ->
             Z.land events WRITE = 0 ->
             Z.land events READ = 0 ->
             _handle_events fd events (ErrExc broken_pipe) write_only
               (mkState sample_connection sample_world []) =
               (Ok tt,
                mkState (reset sample_connection) sample_world
                  (Log ERROR_ "Error event %r, %r" :: calls)))
       /\ socket (reset sample_connection) = None
       /\ count is_RemoveHeartbeat calls = 1%nat
       /\ count is_SockClose calls = 1%nat
       /\ count is_OnConnectionClosed calls = 1%nat.
Proof.
  split; [reflexivity|]. split; [cbn; auto|].
  apply (handle_error_abort (mkState sample_connection sample_world [])
           sample_socket broken_pipe errno.EPIPE);
    [reflexivity | cbn; auto | reflexivity | reflexivity].
Defined.

(** C5 as stated fails: the socket is open, the phase is authenticating and
    the error carries [EPIPE]; the handler runs the disconnect sequence,
    which raises ProbableAuthenticationError, and the connection-closed
    callback is not invoked. *)
Lemma handle_error_abort_counterexample :
  In errno.EPIPE ERRORS_TO_ABORT
  /\ err_errno broken_pipe = Some errno.EPIPE
  /\ socket authenticating_connection = Some sample_socket
  /\ fst (_handle_error (ErrExc broken_pipe)
            (mkState authenticating_connection sample_world []))
     = Raise ProbableAuthenticationError
  /\ socket (self (snd (_handle_error (ErrExc broken_pipe)
                          (mkState authenticating_connection sample_world []))))
     = None
  /\ count is_OnConnectionClosed
       (trace (snd (_handle_error (ErrExc broken_pipe)
                      (mkState authenticating_connection sample_world []))))
     = 0%nat.
Proof. repeat split; cbn; auto. Qed.

(** The error handler on an error of the ignore list. *)
Lemma ignore_error_run : forall (st : State) (e : OSErr) (code : Z),
  In code ERRORS_TO_IGNORE ->
  err_errno e = Some code ->
  str_contains "timed out" (err_text e) = false ->
  _handle_error (ErrExc e) st =
  (Ok tt, mkState (self st) (world st) (trace st ++ [Log DEBUG "Ignoring %s"])).
Proof.
  intros [c w tr] e code Hin He Ht.
  unfold _handle_error, timed_out_in_str, _get_error_code. rewrite Ht.
  unfold bind at 1, ret. rewrite He.
  assert (Hc : no_code (Some code) = false
               /\ mem (code_of (Some code)) ERRORS_TO_IGNORE = true).
  { cbn in Hin. destruct Hin as [<-|[<-|[<-|[]]]]; split; reflexivity. }
  destruct Hc as (-> & ->). reflexivity.
Qed.

(** C6 as stated fails: the event carries the ERROR bit and an error with
    [EAGAIN], a code of the ignore list, but it carries READ as well and the
    handler is in write-only mode.  The handler takes READ with ERROR for a
    disconnected socket before it looks at the error: the disconnect
    sequence runs, the socket is closed and [self.socket] is [None]. *)
Lemma handle_events_ignored_error_counterexample :
  In errno.EAGAIN ERRORS_TO_IGNORE
  /\ err_errno would_block = Some errno.EAGAIN
  /\ Z.land (Z.lor READ ERROR) ERROR <> 0
  /\ socket sample_connection = Some sample_socket
  /\ _handle_events 7 (Z.lor READ ERROR) (ErrExc would_block) true
       (mkState sample_connection sample_world [])
     = (Ok tt,
        mkState (reset sample_connection) sample_world
          [Log ERROR_ "BAD libc:  Write-Only but Read+Error. Assume socket disconnected.";
           RemoveHeartbeat; SockShutdown 7; SockClose 7;
           Log WARNING "Socket closed when connection was open";
           IoloopStop; OnConnectionClosed])
  /\ socket (reset sample_connection) = None
  /\ connection_state (reset sample_connection)
     <> connection_state sample_connection.
Proof.
  split; [cbn; auto|]. split; [reflexivity|]. split; [discriminate|].
  split; [reflexivity|]. split; [reflexivity|]. split; [reflexivity|].
  discriminate.
Qed.

(** C6, as the code has it: for every code of the ignore list
    ([EWOULDBLOCK], [EAGAIN], [EINTR]), a call of the event handler with
    the ERROR bit alone (neither READ nor WRITE) and an error that carries
    the code (and whose text does not hold 'timed out') returns with the
    attributes unchanged: the socket is still open, the phase is the same;
    the only calls are two to the logger, so no disconnect sequence has
    run. *)
Theorem handle_events_ignored_error :
  forall (st : State) (sock : Socket) (fd events : Z) (e : OSErr) (code : Z)
         (write_only : bool),
    socket (self st) = Some sock ->
    In code ERRORS_TO_IGNORE ->
    err_errno e = Some code ->
    str_contains "timed out" (err_text e) = false ->
    Z.land events ERROR <> 0 ->
    Z.land events WRITE = 0 ->
    Z.land events READ = 0 ->
    _handle_events fd events (ErrExc e) write_only st =
    (Ok tt,
     mkState (self st) (world st)
       (trace st ++ [Log ERROR_ "Error event %r, %r"; Log DEBUG "Ignoring %s"])).
Proof.
  intros [c w tr] sock fd events e code wo Hs Hin He Ht Herr Hw Hr; cbn in Hs.
  unfold _handle_events. rewrite Hw, Hr, (truthy_true _ Herr).
  change (truthy 0) with false.
  unfold when; run.
  repeat (rewrite ?Hs, ?andb_false_r; cbn).
  rewrite (ignore_error_run _ e code Hin He Ht); cbn.
  norm_app. reflexivity.
Qed.

Lemma handle_events_ignored_error_witness :
  _handle_events 7 ERROR (ErrExc would_block) false
    (mkState authenticating_connection sample_world [])
  = (Ok tt,
     mkState authenticating_connection sample_world
       [Log ERROR_ "Error event %r, %r"; Log DEBUG "Ignoring %s"]).
Proof.
  apply (handle_events_ignored_error
           (mkState authenticating_connection sample_world [])
           sample_socket 7 ERROR would_block errno.EAGAIN false);
    [reflexivity | cbn; auto | reflexivity | reflexivity
     | discriminate | reflexivity | reflexivity].
Defined.

(** ** The read path *)

Lemma recv_retrying_final :
  forall (intr : list OSErr) (fuel : nat) (st : State) (sock : Socket)
         (o : outcome bytes) (later : list (outcome bytes)),
    socket (self st) = Some sock ->
    Forall interrupted intr ->
    final o ->
    recvs (world st) = map Fails intr ++ o :: later ->
    (List.length intr < fuel)%nat ->
    recv_retrying fuel st =
    (delivered o,
     mkState (self st) (with_recvs later (world st))
       (trace st ++ repeat (SockRecv (fileno sock)) (S (List.length intr)))).
Proof.
  induction intr as [|e intr IH]; intros fuel st sock o later Hs Hi Ho Hw Hf.
  - destruct fuel as [|fuel]; [cbn in Hf; lia|].
    destruct st as [c w tr]; cbn in *.
    unfold recv_retrying; run. rewrite Hs; cbn. rewrite Hw; cbn.
    destruct o as [bw|e]; cbn; [reflexivity|].
    cbn in Ho. rewrite Ho. reflexivity.
  - destruct fuel as [|fuel]; [cbn in Hf; lia|].
    inversion Hi as [|? ? He Hi']; subst.
    destruct st as [c w tr]; cbn in *.
    cbn [recv_retrying]; run. rewrite Hs; cbn. rewrite Hw; cbn.
    unfold interrupted in He. rewrite He.
    erewrite IH with (sock := sock) (o := o) (later := later); cbn; eauto; try lia.
    destruct w; cbn. rewrite <- app_assoc. reflexivity.
Qed.

Arguments recv_retrying : simpl never.

(** C7: a read that returns no bytes (after any number of interrupted
    tries) makes the read handler run the disconnect sequence, whatever the
    outbound queue holds: nothing is sent, the socket is closed and the
    reset leaves the queue empty.  The handler returns what the disconnect
    sequence does: it raises the error of the phase, or the connection-closed
    callback is invoked. *)
Theorem handle_read_empty_disconnects :
  forall (st : State) (sock : Socket) (intr : list OSErr)
         (later : list (outcome bytes)),
    socket (self st) = Some sock ->
    Forall interrupted intr ->
    recvs (world st) = map Fails intr ++ Done [] :: later ->
    exists calls : list event,
      _handle_read st =
        (match phase_signal (connection_state (self st)) with
         | Some e => Raise e
         | None => Ok None
         end,
         mkState (reset (self st)) (with_recvs later (world st))
           (trace st ++ repeat (SockRecv (fileno sock)) (S (List.length intr))
              ++ Log ERROR_ "Read empty data, calling disconnect" :: calls))
      /\ calls = disconnect_calls (self st)
                   ++ closed_callback (connection_state (self st))
      /\ count is_SockSend calls = 0%nat
      /\ count is_SockClose calls = 1%nat
      /\ socket (reset (self st)) = None
      /\ outbound_buffer (reset (self st)) = [].
Proof.
  intros [c w tr] sock intr later Hs Hi Hw; cbn in Hs, Hw.
  eexists. split; [|split; [reflexivity|]].
  - unfold _handle_read; run.
    erewrite recv_retrying_final with (sock := sock) (intr := intr)
      (o := Done []) (later := later); cbn; eauto.
    + run. rewrite handle_disconnect_effect; cbn.
      destruct (phase_signal (connection_state c)); cbn; norm_app; reflexivity.
    + rewrite Hw, length_app, length_map. cbn. lia.
  - unfold disconnect_calls; cbn [self]. rewrite Hs. cbn [closing_calls].
    repeat split; count_calls.
Qed.

(** The queue holds [A], [B] and [C] when the peer closes: none of them is
    sent. *)
Lemma handle_read_empty_disconnects_witness :
  exists calls : list event,
    _handle_read
      (mkState (with_outbound_buffer [frame_A; frame_B; frame_C] sample_connection)
         (with_recvs [Done []] sample_world) [])
    = (Ok None,
       mkState (reset sample_connection) sample_world
         (SockRecv 7 :: Log ERROR_ "Read empty data, calling disconnect" :: calls))
    /\ calls = [RemoveHeartbeat; SockShutdown 7; SockClose 7;
                Log WARNING "Socket closed when connection was open";
                IoloopStop; OnConnectionClosed]
    /\ count is_SockSend calls = 0%nat
    /\ count is_SockClose calls = 1%nat
    /\ socket (reset sample_connection) = None
    /\ outbound_buffer (reset sample_connection) = [].
Proof.
  apply (handle_read_empty_disconnects
           (mkState (with_outbound_buffer [frame_A; frame_B; frame_C] sample_connection)
              (with_recvs [Done []] sample_world) [])
           sample_socket [] []);
    [reflexivity | constructor | reflexivity].
Defined.

(** ** The event mask *)




Lemma with_event_state_same : forall c, with_event_state (event_state c) c = c.
Proof. intros []; reflexivity. Qed.


(** ** What crosses the public boundary *)

Lemma settled_reset : forall c, ioloop c = true -> settled (reset c).
Proof. intros c H. split; [exact H|]. intros _. split; reflexivity. Qed.

Lemma settled_socket : forall c sock,
  ioloop c = true -> socket c = Some sock -> settled c.
Proof. intros c sock Hl Hs. split; [exact Hl|]. rewrite Hs. discriminate. Qed.

Lemma handle_disconnect_contained : forall st : State,
  ioloop (self st) = true -> contained (_handle_disconnect st).
Proof.
  intros st Hl. rewrite handle_disconnect_effect.
  destruct (connection_state (self st)); cbn;
    try (apply settled_reset; exact Hl);
    unfold disconnect_signal; auto.
Qed.

(** The error handler leaves the attributes as they are or runs the
    disconnect sequence. *)
Lemma handle_error_cases : forall (error : error_value) (st : State),
  not_an_error_number error ->
  handled st (_handle_error error st).
Proof.
  intros error [c w tr] Hn. unfold _handle_error.
  destruct (timed_out_in_str error).
  { right; right. eexists _, _. split; [reflexivity|]. right; reflexivity. }
  assert (Hc : exists oc, _get_error_code error = ret oc).
  { destruct error as [|n|e]; cbn; eauto.
    rewrite (Hn n eq_refl). cbn. eauto. }
  destruct Hc as [oc ->]. unfold bind at 1, ret.
  destruct (no_code oc).
  { left. eexists. reflexivity. }
  destruct (mem (code_of oc) ERRORS_TO_IGNORE).
  { left. eexists. reflexivity. }
  unfold bind at 1, gets at 1. cbn [self].
  assert (Hd : forall tr' c', reset c' = reset c ->
            handled (mkState c w tr) (_handle_disconnect (mkState c' w tr'))).
  { intros tr' c' Hr. rewrite handle_disconnect_effect; cbn. rewrite Hr.
    unfold handled.
    destruct (connection_state c'); cbn; eauto;
      right; right; eexists _, _; (split; [reflexivity|]); left;
      unfold disconnect_signal; auto. }
  destruct (mem (code_of oc) ERRORS_TO_ABORT).
  { run. apply Hd. reflexivity. }
  destruct (params_ssl c && isinstance_SSLError error).
  - destruct (error_arg0_is error ssl.SSL_ERROR_WANT_READ);
      [|destruct (error_arg0_is error ssl.SSL_ERROR_WANT_WRITE)];
      run; apply Hd; destruct c; reflexivity.
  - run. apply Hd. reflexivity.
Qed.

Lemma handle_error_contained : forall (error : error_value) (st : State),
  not_an_error_number error ->
  settled (self st) ->
  contained (_handle_error error st).
Proof.
  intros error st Hn Hst.
  destruct (handle_error_cases error st Hn)
    as [[tr ->]|[[tr ->]|(e & st' & -> & He)]]; cbn; auto.
  apply settled_reset. apply Hst.
Qed.

Lemma contained_bind : forall {A B} (m : M A) (k : A -> M B) (st : State),
  contained (m st) ->
  (forall a st', settled (self st') -> contained (k a st')) ->
  contained (bind m k st).
Proof.
  intros A B m k st Hm Hk. unfold bind.
  destruct (m st) as [[a|e|] st']; cbn in *; auto.
Qed.

(** A retried [send] leaves the attributes alone, uses up the script and
    raises nothing but what the socket raised; it is pending only when the
    script has run out. *)
Lemma send_retrying_self : forall (fuel : nat) (frame : bytes) (st : State) (sock : Socket),
  socket (self st) = Some sock ->
  (List.length (sends (world st)) < fuel)%nat ->
  match send_retrying fuel frame st with
  | (Ok _, st') | (Raise (OSExc _), st') =>
      self st' = self st
      /\ (List.length (sends (world st')) < List.length (sends (world st)))%nat
  | (Raise _, _) => False
  | (Pending, st') => sends (world st') = []
  end.
Proof.
  induction fuel as [|fuel IH]; intros frame [c w tr] sock Hs Hf; [cbn in Hf; lia|].
  cbn in Hs, Hf. unfold send_retrying; fold send_retrying. run. rewrite Hs; cbn.
  destruct (sends w) as [|[bw|e] later] eqn:Hw; cbn; rewrite ?Hw; cbn;
    [reflexivity | destruct w; cbn; auto |].
  destruct (errno_is e errno.EINTR); [|destruct w; cbn; auto].
  - pose proof (IH frame (mkState c (with_sends later w)
                            (tr ++ [SockSend (fileno sock) frame])) sock Hs) as H.
    cbn [world self] in H.
    assert (Hl : sends (with_sends later w) = later) by (destruct w; reflexivity).
    rewrite Hl in H. cbn in Hf. specialize (H ltac:(lia)).
    destruct (send_retrying fuel frame _) as [[bw|[err| | | | | |]|] st'];
      cbn in *; auto; destruct H as [H1 H2]; split; auto; lia.
Qed.

Lemma recv_retrying_self : forall (fuel : nat) (st : State) (sock : Socket),
  socket (self st) = Some sock ->
  (List.length (recvs (world st)) < fuel)%nat ->
  match recv_retrying fuel st with
  | (Ok _, st') | (Raise (OSExc _), st') =>
      self st' = self st
      /\ (List.length (recvs (world st')) < List.length (recvs (world st)))%nat
  | (Raise _, _) => False
  | (Pending, st') => recvs (world st') = []
  end.
Proof.
  induction fuel as [|fuel IH]; intros [c w tr] sock Hs Hf; [cbn in Hf; lia|].
  cbn in Hs, Hf. unfold recv_retrying; fold recv_retrying. run. rewrite Hs; cbn.
  destruct (recvs w) as [|[bw|e] later] eqn:Hw; cbn; rewrite ?Hw; cbn;
    [reflexivity | destruct w; cbn; auto |].
  destruct (errno_is e errno.EINTR); [|destruct w; cbn; auto].
  - pose proof (IH (mkState c (with_recvs later w)
                      (tr ++ [SockRecv (fileno sock)])) sock Hs) as H.
    cbn [world self] in H.
    assert (Hl : recvs (with_recvs later w) = later) by (destruct w; reflexivity).
    rewrite Hl in H. cbn in Hf. specialize (H ltac:(lia)).
    destruct (recv_retrying fuel _) as [[bw|[err| | | | | |]|] st'];
      cbn in *; auto; destruct H as [H1 H2]; split; auto; lia.
Qed.

Lemma settled_with_outbound_buffer : forall c sock q,
  ioloop c = true -> socket c = Some sock -> settled (with_outbound_buffer q c).
Proof.
  intros c sock q Hl Hs. apply (settled_socket _ sock); destruct c; assumption.
Qed.

Lemma write_loop_contained : forall (fuel : nat) (bytes_written : Z) (st : State),
  settled (self st) ->
  (List.length (sends (world st)) < fuel)%nat ->
  contained (write_loop fuel bytes_written st).
Proof.
  induction fuel as [|fuel IH]; intros acc [c w tr] Hst Hfuel; [cbn in Hfuel; lia|].
  cbn [write_loop]. cbn in Hst, Hfuel. unfold bind at 1, gets at 1. cbn [self].
  destruct (outbound_buffer c) as [|frame rest] eqn:Hq; [exact Hst|].
  destruct (socket c) as [sock|] eqn:Hs.
  2:{ destruct Hst as [_ Hn]. destruct (Hn Hs) as [Hn' _]. congruence. }
  destruct Hst as [Hl _].
  unfold bind at 1, update_self at 1. cbn [self world trace].
  unfold bind at 1, ask at 1. cbn [self world trace].
  unfold bind at 1, attempt at 1.
  pose proof (send_retrying_self (S (List.length (sends w))) frame
                (mkState (with_outbound_buffer rest c) w tr) sock) as Hsend.
  cbn [self world] in Hsend.
  assert (Hs' : socket (with_outbound_buffer rest c) = Some sock)
    by (destruct c; exact Hs).
  specialize (Hsend Hs' ltac:(lia)).
  destruct (send_retrying _ frame _) as [[bw|e|] [c1 w1 tr1]]; cbn in Hsend.
  - destruct Hsend as [-> Hlen].
    destruct (bw <? len frame).
    + run. apply (settled_with_outbound_buffer _ sock); destruct c; assumption.
    + apply IH; cbn; [|lia].
      apply (settled_with_outbound_buffer _ sock); assumption.
  - destruct e as [err| | | | | |]; try contradiction. destruct Hsend as [-> Hlen].
    destruct (is_timeout err).
    { run. apply (settled_with_outbound_buffer _ sock); destruct c; assumption. }
    destruct (errno_is err errno.EAGAIN || errno_is err errno.EWOULDBLOCK).
    { run. apply (settled_with_outbound_buffer _ sock); destruct c; assumption. }
    apply contained_bind.
    + apply handle_error_contained; [intros n Hn; discriminate|].
      cbn. apply (settled_with_outbound_buffer _ sock); assumption.
    + intros _ st' Hst'. exact Hst'.
  - left. exact Hsend.
Qed.

Lemma handle_write_contained : forall st : State,
  settled (self st) -> contained (_handle_write st).
Proof.
  intros st Hst. unfold _handle_write, bind, ask.
  apply write_loop_contained; [exact Hst|lia].
Qed.

Lemma manage_event_state_contained : forall st : State,
  settled (self st) -> contained (_manage_event_state st).
Proof.
  intros [c w tr] [Hl Hn]; cbn in Hl, Hn.
  unfold _manage_event_state; run.
  destruct (socket c) as [sock|] eqn:Hs.
  - assert (Hset : forall m, settled (with_event_state m c)).
    { intros m. apply (settled_socket _ sock); destruct c; assumption. }
    fold (has (event_state c) WRITE).
    destruct (outbound_buffer c), (has (event_state c) WRITE); cbn;
      rewrite ?Hl; cbn; rewrite ?Hs; cbn; try apply Hset;
      apply (settled_socket _ sock); assumption.
  - destruct (Hn eq_refl) as [Hq Hw]. rewrite Hq.
    fold (has (event_state c) WRITE). rewrite Hw. cbn.
    split; [exact Hl|]. intros _. split; assumption.
Qed.

Lemma handle_read_contained : forall (st : State) (sock : Socket),
  ioloop (self st) = true ->
  socket (self st) = Some sock ->
  contained (_handle_read st).
Proof.
  intros [c w tr] sock Hl Hs; cbn in Hl, Hs.
  unfold _handle_read.
  unfold bind at 1, ask at 1. cbn [self world trace].
  unfold bind at 1, attempt at 1.
  pose proof (recv_retrying_self (S (List.length (recvs w)))
                (mkState c w tr) sock Hs) as Hrecv.
  cbn [self world] in Hrecv. specialize (Hrecv ltac:(lia)).
  destruct (recv_retrying _ _) as [[data|e|] [c1 w1 tr1]]; cbn in Hrecv.
  - destruct Hrecv as [-> _]. destruct data as [|b data].
    + apply contained_bind; [run; apply (settled_socket _ sock); assumption|].
      intros _ st' Hst'. apply contained_bind.
      * apply handle_disconnect_contained. apply Hst'.
      * intros _ st'' Hst''. exact Hst''.
    + run. apply (settled_socket _ sock); assumption.
  - destruct e as [err| | | | | |]; try contradiction. destruct Hrecv as [-> _].
    assert (Hc : settled c) by (apply (settled_socket _ sock); assumption).
    assert (He : contained ((_handle_error (ErrExc err) ;; ret (@None Z))
                              (mkState c w1 tr1))).
    { apply contained_bind.
      - apply handle_error_contained; [intros n Hn; discriminate|exact Hc].
      - intros _ st' Hst'. exact Hst'. }
    destruct (is_timeout err); [exact Hc|].
    destruct (is_SSLError err).
    { destruct (arg0_is err ssl.SSL_ERROR_WANT_READ); [exact Hc|exact He]. }
    destruct (errno_is err errno.EAGAIN || errno_is err errno.EWOULDBLOCK);
      [exact Hc|exact He].
  - right. exact Hrecv.
Qed.

Lemma bind_has_socket : forall {B} (k : bool -> M B) (st : State),
  bind has_socket k st = k (socket_open (self st)) st.
Proof. reflexivity. Qed.

Lemma contained_when : forall (cond : bool) (body : M unit) (st : State),
  settled (self st) ->
  (cond = true -> contained (body st)) ->
  contained (when cond body st).
Proof.
  intros cond body st Hst Hb. unfold when.
  destruct cond; [apply Hb; reflexivity|exact Hst].
Qed.

Lemma socket_open_true : forall c,
  socket_open c = true -> exists sock, socket c = Some sock.
Proof.
  intros c H. unfold socket_open in H.
  destruct (socket c) as [sock|]; [eauto|discriminate].
Qed.

Lemma handle_events_contained :
  forall (st : State) (fd events : Z) (error : error_value) (write_only : bool),
    not_an_error_number error ->
    settled (self st) ->
    contained (_handle_events fd events error write_only st).
Proof.
  intros st fd events error wo Hn Hst.
  unfold _handle_events. rewrite bind_has_socket.
  destruct (negb (socket_open (self st))); [exact Hst|].
  rewrite bind_has_socket. apply contained_bind.
  { apply contained_when; [exact Hst|]. intros _.
    apply contained_bind; [apply handle_write_contained; exact Hst|].
    intros _ st' Hst'. apply manage_event_state_contained. exact Hst'. }
  intros _ st1 Hst1. rewrite bind_has_socket. apply contained_bind.
  { apply contained_when; [exact Hst1|]. intros Hc.
    apply andb_prop in Hc. destruct Hc as [Hc _].
    apply andb_prop in Hc. destruct Hc as [Hc _].
    destruct (socket_open_true _ Hc) as [sock Hs].
    apply contained_bind.
    - apply (handle_read_contained st1 sock); [apply Hst1|exact Hs].
    - intros _ st' Hst'. exact Hst'. }
  intros _ st2 Hst2. rewrite bind_has_socket. apply contained_bind.
  { apply contained_when; [exact Hst2|]. intros _.
    apply contained_bind; [exact Hst2|].
    intros _ st' Hst'. apply handle_disconnect_contained. apply Hst'. }
  intros _ st3 Hst3. rewrite bind_has_socket.
  apply contained_when; [exact Hst3|]. intros _.
  apply contained_bind; [exact Hst3|].
  intros _ st' Hst'. apply handle_error_contained; assumption.
Qed.

(** C10 as stated fails: the error handler, given the error of a
    connection that timed out ([ETIMEDOUT], whose text holds 'timed out'),
    raises [socket.timeout], which is none of the three disconnect signals;
    so does the event handler when it dispatches that error. *)
Lemma other_exception_counterexample :
  fst (_handle_error (ErrExc connection_timed_out)
         (mkState sample_connection sample_world []))
  = Raise TimeoutRaised
  /\ fst (_handle_events 7 ERROR (ErrExc connection_timed_out) false
            (mkState sample_connection sample_world []))
     = Raise TimeoutRaised
  /\ ~ disconnect_signal TimeoutRaised.
Proof.
  repeat split. intros [H|[H|H]]; discriminate H.
Qed.

(** C10, as the code has it: whatever the state, the events and the
    outcomes of the socket, and for an error value that is [None], 0 or an
    exception object, the error handler returns or raises one of the three
    disconnect signals of the phase or the [socket.timeout] it raises for an
    error whose text holds 'timed out'; so does the event handler of a
    connection with a reactor, unless it waits for an outcome of the socket
    that the script does not have.  No other exception leaves them. *)
Theorem only_disconnect_signals_or_timeout :
  forall (st : State) (fd events : Z) (error : error_value) (write_only : bool),
    not_an_error_number error ->
    match _handle_error error st with
    | (Ok _, _) => True
    | (Raise e, _) => disconnect_signal e \/ e = TimeoutRaised
    | (Pending, _) => False
    end
    /\ (ioloop (self st) = true ->
        match _handle_events fd events error write_only st with
        | (Ok _, _) => True
        | (Raise e, _) => disconnect_signal e \/ e = TimeoutRaised
        | (Pending, st') => starved (world st')
        end).
Proof.
  intros st fd events error wo Hn. split.
  - destruct (handle_error_cases error st Hn)
      as [[tr ->]|[[tr ->]|(e' & st' & -> & He)]]; auto.
  - intros Hl.
    destruct (socket (self st)) as [sock|] eqn:Hs.
    + pose proof (handle_events_contained st fd events error wo Hn
                    (settled_socket _ sock Hl Hs)) as Hc.
      destruct (_handle_events fd events error wo st) as [[u|e'|] st'];
        cbn in *; auto.
    + unfold _handle_events. rewrite bind_has_socket.
      unfold socket_open. rewrite Hs. cbn. exact I.
Qed.

Lemma only_disconnect_signals_or_timeout_witness :
  not_an_error_number (ErrExc broken_pipe)
  /\ ioloop authenticating_connection = true
  /\ match _handle_events 7 ERROR (ErrExc broken_pipe) false
            (mkState authenticating_connection sample_world []) with
     | (Ok _, _) => True
     | (Raise e, _) => disconnect_signal e \/ e = TimeoutRaised
     | (Pending, st') => starved (world st')
     end.
Proof.
  assert (Hn : not_an_error_number (ErrExc broken_pipe))
    by (intros n H; discriminate H).
  split; [exact Hn|]. split; [reflexivity|].
  apply (proj2 (only_disconnect_signals_or_timeout
                  (mkState authenticating_connection sample_world [])
                  7 ERROR (ErrExc broken_pipe) false Hn)).
  reflexivity.
Defined.

(** ** The dial *)

Lemma with_event_state_twice : forall m1 m2 c,
  with_event_state m2 (with_event_state m1 c) = with_event_state m2 c.
Proof. intros m1 m2 []; reflexivity. Qed.

Lemma manage_event_state_dial : forall c w tr sock,
  socket c = Some sock ->
  ioloop c = true ->
  exists es extra,
    _manage_event_state (mkState c w tr)
    = (Ok tt, mkState (with_event_state es c) w (tr ++ extra))
    /\ filter is_dial_call extra = [].
Proof.
  intros c w tr sock Hs Hl. unfold _manage_event_state; run.
  destruct (outbound_buffer c), (truthy (Z.land (event_state c) WRITE)); cbn;
    rewrite ?Hl; cbn; rewrite ?Hs; cbn.
  - exists (base_events c), [UpdateHandler (fileno sock) (base_events c)].
    split; reflexivity.
  - exists (event_state c), []. rewrite with_event_state_same, app_nil_r.
    split; reflexivity.
  - exists (event_state c), []. rewrite with_event_state_same, app_nil_r.
    split; reflexivity.
  - exists (Z.lor (event_state c) WRITE),
      [UpdateHandler (fileno sock) (Z.lor (event_state c) WRITE)].
    split; reflexivity.
Qed.

Arguments ssl_handshake_loop : simpl never.

Lemma ssl_handshake_loop_dial :
  forall (wants : list OSErr) (fuel : nat) c w tr sock
         (last : outcome unit) (more : list (outcome unit)),
    socket c = Some sock ->
    ioloop c = true ->
    Forall wants_io wants ->
    ends_handshake last ->
    handshakes w = map Fails wants ++ last :: more ->
    (List.length wants < fuel)%nat ->
    exists es extra,
      ssl_handshake_loop fuel (mkState c w tr)
      = (delivered last,
         mkState (with_event_state es c) (with_handshakes more w) (tr ++ extra))
      /\ filter is_dial_call extra = [].
Proof.
  induction wants as [|e wants IH];
    intros fuel c w tr sock last more Hs Hl Hw He Hh Hf;
    (destruct fuel as [|fuel]; [cbn in Hf; lia|]).
  - unfold ssl_handshake_loop; run. rewrite Hs; cbn. cbn in Hh; rewrite Hh; cbn.
    destruct last as [[]|err]; cbn.
    + exists (event_state c), [SockHandshake (fileno sock)].
      rewrite with_event_state_same. split; reflexivity.
    + destruct He as (-> & -> & ->). cbn.
      exists (event_state c), [SockHandshake (fileno sock)].
      rewrite with_event_state_same. split; reflexivity.
  - inversion Hw as [|? ? [Hssl Hwant] Hw']; subst.
    unfold ssl_handshake_loop; fold ssl_handshake_loop; run.
    rewrite Hs; cbn. cbn in Hh; rewrite Hh; cbn. rewrite Hssl.
    set (hint := if arg0_is e ssl.SSL_ERROR_WANT_READ then READ else WRITE).
    assert (Hhint :
      (if arg0_is e ssl.SSL_ERROR_WANT_READ
       then update_self (with_event_state READ)
       else if arg0_is e ssl.SSL_ERROR_WANT_WRITE
            then update_self (with_event_state WRITE)
            else raise (OSExc e))
      = update_self (with_event_state hint)).
    { unfold hint. destruct (arg0_is e ssl.SSL_ERROR_WANT_READ); [reflexivity|].
      destruct Hwant as [Hwant|Hwant]; [discriminate|]. rewrite Hwant. reflexivity. }
    unfold update_self, raise in Hhint. rewrite Hhint. cbn.
    assert (Hs1 : socket (with_event_state hint c) = Some sock)
      by (destruct c; exact Hs).
    assert (Hl1 : ioloop (with_event_state hint c) = true)
      by (destruct c; exact Hl).
    destruct (manage_event_state_dial (with_event_state hint c)
                (with_handshakes (map Fails wants ++ last :: more) w)
                (tr ++ [SockHandshake (fileno sock)]) sock Hs1 Hl1)
      as (es1 & extra1 & -> & Hx1).
    rewrite with_event_state_twice.
    assert (Hs2 : socket (with_event_state es1 c) = Some sock)
      by (destruct c; exact Hs).
    assert (Hl2 : ioloop (with_event_state es1 c) = true)
      by (destruct c; exact Hl).
    destruct (IH fuel (with_event_state es1 c)
                (with_handshakes (map Fails wants ++ last :: more) w)
                ((tr ++ [SockHandshake (fileno sock)]) ++ extra1)
                sock last more Hs2 Hl2 Hw' He eq_refl)
      as (es2 & extra2 & -> & Hx2); [cbn in Hf; lia|].
    rewrite with_event_state_twice.
    exists es2, ([SockHandshake (fileno sock)] ++ extra1 ++ extra2).
    split.
    + destruct w; cbn. norm_app. reflexivity.
    + rewrite !filter_app, Hx1, Hx2. reflexivity.
Qed.

Arguments _do_ssl_handshake : simpl never.

Lemma do_ssl_handshake_dial :
  forall c w tr sock (wants : list OSErr) (last : outcome unit)
         (more : list (outcome unit)),
    socket c = Some sock ->
    ioloop c = true ->
    Forall wants_io wants ->
    ends_handshake last ->
    handshakes w = map Fails wants ++ last :: more ->
    exists es extra,
      _do_ssl_handshake (mkState c w tr)
      = (delivered last,
         mkState (with_event_state es c) (with_handshakes more w) (tr ++ extra))
      /\ filter is_dial_call extra = [].
Proof.
  intros c w tr sock wants last more Hs Hl Hw He Hh.
  unfold _do_ssl_handshake; run.
  apply (ssl_handshake_loop_dial wants _ c w tr sock last more); auto.
  rewrite Hh, length_app, length_map. lia.
Qed.

Lemma create_and_connect_dial :
  forall c w tr (cand : AddrInfo * answer) (later_c later_h : list (outcome unit)),
    ioloop c = true ->
    valid_answer (snd cand) ->
    connects w = connect_outcome (snd cand) :: later_c ->
    handshakes w = handshake_outcomes (params_ssl c) (snd cand) ++ later_h ->
    exists es extra,
      _create_and_connect_to_socket (fst cand) (mkState c w tr)
      = (Ok (candidate_error (params_ssl c) cand),
         mkState
           (with_socket (Some (dialled_socket (params_ssl c) (next_fileno w) cand))
              (with_event_state es c))
           (with_next_fileno (next_fileno w + 1)
              (with_connects later_c (with_handshakes later_h w)))
           (tr ++ extra))
      /\ filter is_dial_call extra
         = [SockCreate (next_fileno w) (ai_family (fst cand));
            SockConnect (next_fileno w) (fst cand)].
Proof.
  intros [use_ssl loop stop s base es phase q] [rs cs hs ss rc fd se] tr
    [a att] later_c later_h Hl Hv Hc Hh.
  unfold _create_and_connect_to_socket, _wrap_socket, candidate_error,
    dialled_socket.
  cbn in Hl, Hv, Hc, Hh. cbn [fst snd params_ssl next_fileno]. subst loop cs.
  destruct att as [e|wants last]; cbn in Hh, Hv.
  - (* the connect fails *)
    subst hs. exists es.
    destruct use_ssl; run; destruct (is_timeout e); cbn;
      eexists; (split; [norm_app; reflexivity|]); reflexivity.
  - destruct use_ssl; cbn in Hh.
    + (* TLS: the handshake follows the connect *)
      rewrite <- app_assoc in Hh. cbn in Hh. subst hs. destruct Hv as [Hw He].
      run.
      match goal with
      | |- context [_do_ssl_handshake (mkState ?c ?w ?t)] =>
          destruct (do_ssl_handshake_dial c w t _ wants last later_h
                      eq_refl eq_refl Hw He eq_refl)
            as (es1 & extra1 & -> & Hx)
      end.
      exists es1.
      destruct last as [[]|err]; cbn.
      * eexists; split; [norm_app; reflexivity|].
        cbn. rewrite Hx. reflexivity.
      * destruct He as (-> & _). cbn.
        eexists; split; [norm_app; reflexivity|].
        cbn. rewrite ?filter_app, Hx. reflexivity.
    + subst hs. exists es. run.
      eexists; (split; [norm_app; reflexivity|]); reflexivity.
Qed.

Lemma cleanup_socket_run : forall c w tr sock,
  socket c = Some sock ->
  _cleanup_socket (mkState c w tr)
  = (Ok tt,
     mkState (with_socket None c) w
       (tr ++ [SockShutdown (fileno sock); SockClose (fileno sock)])).
Proof.
  intros c w tr sock Hs. unfold _cleanup_socket; run.
  repeat (rewrite Hs; cbn).
  destruct (shutdown_error w (fileno sock)); cbn;
    repeat (rewrite Hs; cbn); norm_app; reflexivity.
Qed.

Arguments _cleanup_socket : simpl never.
Arguments _create_and_connect_to_socket : simpl never.

Lemma candidate_error_truthy : forall use_ssl cand,
  fails use_ssl cand ->
  exists error, candidate_error use_ssl cand = Some error
                /\ no_error (Some error) = false.
Proof.
  intros use_ssl [a att] Hf. unfold fails, candidate_error in *. cbn [fst snd] in *.
  destruct att as [e|wants last].
  - eexists. split; [reflexivity|]. destruct (is_timeout e); reflexivity.
  - destruct (use_ssl && DO_HANDSHAKE); [|contradiction Hf; reflexivity].
    destruct last as [u|e]; [contradiction Hf; reflexivity|].
    eexists. split; reflexivity.
Qed.

Lemma last_cons : forall {A} (l : list A) (x d : A),
  List.last (x :: l) d = List.last l x.
Proof.
  induction l as [|y l IH]; intros x d; [reflexivity|].
  change (List.last (y :: l) d = List.last (y :: l) x).
  rewrite !IH. reflexivity.
Qed.

(** The candidates that fail, one after the other: each gets a socket,
    which is closed before the loop goes on with the error of the last. *)
Lemma connect_loop_failed :
  forall (failed : list (AddrInfo * answer)) c w tr (error : option string)
         (rest : list AddrInfo) (later_c later_h : list (outcome unit)),
    ioloop c = true ->
    socket c = None ->
    Forall (fun cand => valid_answer (snd cand)) failed ->
    Forall (fails (params_ssl c)) failed ->
    connects w = map (fun cand => connect_outcome (snd cand)) failed ++ later_c ->
    handshakes w =
      List.concat (map (fun cand => handshake_outcomes (params_ssl c) (snd cand)) failed)
        ++ later_h ->
    exists es extra,
      connect_loop (map fst failed ++ rest) error (mkState c w tr)
      = connect_loop rest
          (List.last (map (candidate_error (params_ssl c)) failed) error)
          (mkState (with_event_state es c)
             (with_next_fileno (next_fileno w + Z.of_nat (List.length failed))
                (with_connects later_c (with_handshakes later_h w)))
             (tr ++ extra))
      /\ filter is_dial_call extra = failed_calls (next_fileno w) failed.
Proof.
  induction failed as [|cand failed IH];
    intros c w tr error rest later_c later_h Hl Hs Hv Hf Hc Hh.
  - cbn in Hc, Hh. subst later_c later_h.
    exists (event_state c), []. rewrite with_event_state_same, app_nil_r.
    split; [|reflexivity]. cbn.
    destruct w; cbn. rewrite Z.add_0_r. reflexivity.
  - inversion Hv as [|? ? Hv1 Hv']; subst. inversion Hf as [|? ? Hf1 Hf']; subst.
    cbn [map List.concat] in Hh. rewrite <- app_assoc in Hh. cbn [map app] in Hc.
    destruct (create_and_connect_dial c w tr cand _ _ Hl Hv1 Hc Hh)
      as (es1 & extra1 & Hrun & Hx1).
    destruct (candidate_error_truthy _ _ Hf1) as (msg & Hmsg & Htruthy).
    cbn [map app connect_loop]. unfold bind at 1. rewrite Hrun, Hmsg, Htruthy.
    unfold bind at 1.
    erewrite cleanup_socket_run by (destruct c; reflexivity).
    cbn [fileno dialled_socket].
    match goal with
    | |- context [connect_loop _ _ (mkState ?c1 ?w1 ?tr1)] =>
        destruct (IH c1 w1 tr1 (Some msg) rest later_c later_h)
          as (es2 & extra2 & -> & Hx2)
    end.
    + destruct c; exact Hl.
    + destruct c; reflexivity.
    + assert (Hp : forall s m c0, params_ssl (with_socket None (with_socket s (with_event_state m c0)))
                                  = params_ssl c0) by (intros ? ? []; reflexivity).
      exact Hv'.
    + destruct c; exact Hf'.
    + destruct w; reflexivity.
    + destruct c, w; reflexivity.
    + exists es2.
      exists (extra1 ++ [SockShutdown (next_fileno w); SockClose (next_fileno w)] ++ extra2).
      split.
      * rewrite last_cons.
        assert (Hp : params_ssl (with_socket None
                       (with_socket (Some (dialled_socket (params_ssl c) (next_fileno w) cand))
                          (with_event_state es1 c))) = params_ssl c)
          by (destruct c; reflexivity).
        rewrite Hp. f_equal. f_equal.
        -- destruct c; cbn in Hs |- *. subst. reflexivity.
        -- change (List.length (cand :: failed)) with (S (List.length failed)).
           rewrite Nat2Z.inj_succ. destruct w; unfold with_next_fileno,
             with_connects, with_handshakes; cbn [resolves connects handshakes
             sends recvs next_fileno shutdown_error]. f_equal. lia.
        -- norm_app. reflexivity.
      * rewrite !filter_app, Hx1, Hx2. destruct w; reflexivity.
Qed.

Lemma resolve_loop_final :
  forall (intr : list OSErr) (fuel : nat) c w tr (addresses : list AddrInfo)
         (later : list (outcome (list AddrInfo))),
    Forall interrupted intr ->
    resolves w = map Fails intr ++ Done addresses :: later ->
    (List.length intr < fuel)%nat ->
    resolve_loop fuel (mkState c w tr)
    = (Ok (inl addresses),
       mkState c (with_resolves later w)
         (tr ++ repeat GetAddrInfo (S (List.length intr)))).
Proof.
  induction intr as [|e intr IH]; intros fuel c w tr addresses later Hi Hr Hf;
    (destruct fuel as [|fuel]; [cbn in Hf; lia|]).
  - unfold resolve_loop; run. cbn in Hr. rewrite Hr. reflexivity.
  - inversion Hi as [|? ? He Hi']; subst.
    unfold resolve_loop; fold resolve_loop; run. cbn in Hr. rewrite Hr. cbn.
    unfold interrupted in He. rewrite He.
    rewrite (IH fuel c (with_resolves (map Fails intr ++ Done addresses :: later) w)
               _ addresses later Hi' eq_refl) by (cbn in Hf; lia).
    destruct w; cbn. norm_app. reflexivity.
Qed.

Arguments resolve_loop : simpl never.

Lemma last_failed_error : forall use_ssl cands d,
  Forall (fails use_ssl) cands ->
  exists error,
    List.last (map (candidate_error use_ssl) cands) (Some d) = Some error.
Proof.
  intros use_ssl cands. induction cands as [|cand cands IH]; intros d Hf.
  - exists d. reflexivity.
  - inversion Hf as [|? ? Hf1 Hf']; subst.
    destruct (candidate_error_truthy _ _ Hf1) as (msg & Hmsg & _).
    cbn [map]. rewrite Hmsg, last_cons. apply IH. exact Hf'.
Qed.

Lemma filter_repeat_GetAddrInfo : forall n,
  filter is_dial_call (repeat GetAddrInfo n) = [].
Proof. induction n as [|n IH]; [reflexivity|exact IH]. Qed.

(** X21: the candidates whose connect fails, or whose connect succeeds
    and whose TLS handshake (when there is one) succeeds or ends in an
    [ssl.SSLError], are dialled from left to right.  When all of them
    fail, every socket is closed before the next is made and the error
    returned is that of the last candidate, which is the no-addresses
    message when there was no candidate.  When one connects after others
    have failed, the sockets of those are closed, the socket that connected
    is set non-blocking, [None] is returned and the candidates after it are
    not dialled: the answers of the network to them are still to come. *)
Theorem adapter_connect_candidates :
  forall (st : State) (intr : list OSErr) (cands : list (AddrInfo * answer))
         (later_r : list (outcome (list AddrInfo)))
         (later_c later_h : list (outcome unit)),
    ioloop (self st) = true ->
    socket (self st) = None ->
    dial_script st intr cands later_r later_c later_h ->
    (Forall (fails (params_ssl (self st))) cands ->
     exists st',
       _adapter_connect st
       = (Ok (Some (ErrorText (last_error (params_ssl (self st)) cands))), st')
       /\ socket (self st') = None
       /\ filter is_dial_call (trace st')
          = filter is_dial_call (trace st)
              ++ failed_calls (next_fileno (world st)) cands
       /\ connects (world st') = later_c)
    /\
    (forall failed cand rest,
       cands = failed ++ cand :: rest ->
       Forall (fails (params_ssl (self st))) failed ->
       candidate_error (params_ssl (self st)) cand = None ->
       exists st',
         _adapter_connect st = (Ok None, st')
         /\ socket (self st')
            = Some (mkSocket (next_fileno (world st) + Z.of_nat (List.length failed))
                      (ai_family (fst cand)) (params_ssl (self st)) false
                      (Some (fst cand)))
         /\ filter is_dial_call (trace st')
            = filter is_dial_call (trace st)
                ++ failed_calls (next_fileno (world st)) failed
                ++ connected_calls
                     (next_fileno (world st) + Z.of_nat (List.length failed))
                     (fst cand)
         /\ connects (world st')
            = map (fun cand => connect_outcome (snd cand)) rest ++ later_c)
    /\
    (cands = [] ->
     last_error (params_ssl (self st)) cands = "No socket addresses available"%string).
Proof.
  intros [c w tr] intr cands later_r later_c later_h Hl Hs
    (Hr & Hi & Hv & Hc & Hh); cbn [self world trace] in *.
  assert (Hadapter : _adapter_connect (mkState c w tr)
    = connect_loop (map fst cands) (Some "No socket addresses available"%string)
        (mkState c (with_resolves later_r w)
           (tr ++ repeat GetAddrInfo (S (List.length intr))))).
  { unfold _adapter_connect, bind, ask; cbn [self world trace].
    rewrite (resolve_loop_final intr _ c w tr (map fst cands) later_r Hi Hr);
      [reflexivity|].
    rewrite Hr, length_app, length_map. lia. }
  rewrite Hadapter. clear Hadapter.
  split; [|split; [|intros ->; reflexivity]].
  - (* all candidates fail *)
    intros Hf.
    destruct (connect_loop_failed cands c (with_resolves later_r w)
                (tr ++ repeat GetAddrInfo (S (List.length intr)))
                (Some "No socket addresses available"%string) []
                later_c later_h Hl Hs Hv Hf)
      as (es & extra & Hrun & Hx);
      [destruct w; exact Hc|destruct w; exact Hh|].
    rewrite app_nil_r in Hrun. rewrite Hrun.
    destruct (last_failed_error (params_ssl c) cands
                "No socket addresses available"%string Hf) as [error Herr].
    unfold last_error. rewrite Herr. cbn [connect_loop]. unfold ret.
    eexists. split; [reflexivity|]. cbn [self world trace].
    split; [destruct c; exact Hs|]. split; [|destruct w; reflexivity].
    rewrite !filter_app, filter_repeat_GetAddrInfo, Hx, app_nil_r.
    destruct w; reflexivity.
  - (* one connects *)
    intros failed cand rest -> Hf Hok.
    apply Forall_app in Hv. destruct Hv as [Hv Hv2].
    inversion Hv2 as [|? ? Hvc _]; subst.
    rewrite !map_app in Hc, Hh. rewrite map_app.
    rewrite concat_app in Hh. rewrite <- !app_assoc in Hc, Hh.
    cbn [map app List.concat] in Hc, Hh. rewrite <- !app_assoc in Hh.
    destruct (connect_loop_failed failed c (with_resolves later_r w)
                (tr ++ repeat GetAddrInfo (S (List.length intr)))
                (Some "No socket addresses available"%string)
                (map fst (cand :: rest))
                (connect_outcome (snd cand)
                   :: map (fun cand => connect_outcome (snd cand)) rest ++ later_c)
                (handshake_outcomes (params_ssl c) (snd cand)
                   ++ List.concat
                        (map (fun cand => handshake_outcomes (params_ssl c) (snd cand)) rest)
                   ++ later_h)
                Hl Hs Hv Hf)
      as (es & extra & Hrun & Hx);
      [destruct w; exact Hc|destruct w; exact Hh|].
    rewrite Hrun. clear Hrun.
    cbn [map connect_loop]. unfold bind at 1.
    match goal with
    | |- context [_create_and_connect_to_socket _ (mkState ?c1 ?w1 ?tr1)] =>
        destruct (create_and_connect_dial c1 w1 tr1 cand
                    (map (fun cand => connect_outcome (snd cand)) rest ++ later_c)
                    (List.concat
                       (map (fun cand => handshake_outcomes (params_ssl c) (snd cand)) rest)
                       ++ later_h))
          as (es1 & extra1 & Hrun1 & Hx1)
    end.
    + destruct c; exact Hl.
    + exact Hvc.
    + destruct w; reflexivity.
    + destruct c, w; reflexivity.
    + rewrite Hrun1. clear Hrun1.
      assert (Hp : params_ssl (with_event_state es c) = params_ssl c)
        by (destruct c; reflexivity).
      rewrite Hp, Hok. cbn [no_error].
      unfold socket_setblocking; run.
      eexists. split; [reflexivity|]. cbn [self world trace].
      unfold candidate_error in Hok.
      destruct cand as [a [e|wants last]]; cbn [fst snd] in *; [discriminate|].
      split; [destruct c, w; reflexivity|].
      split; [|destruct w; reflexivity].
      change (GetAddrInfo :: repeat GetAddrInfo (List.length intr))
        with (repeat GetAddrInfo (S (List.length intr))).
      rewrite !filter_app, filter_repeat_GetAddrInfo, Hx, Hx1. cbn.
      rewrite app_nil_r. unfold connected_calls.
      destruct w; cbn. norm_app. reflexivity.
Qed.

Lemma adapter_connect_candidates_witness :
  exists st',
    _adapter_connect (mkState closed_connection dial_world []) = (Ok None, st')
    /\ socket (self st') = Some (mkSocket 10 2 false false (Some addr_3))
    /\ filter is_dial_call (trace st')
       = [SockCreate 8 10; SockConnect 8 addr_1; SockClose 8;
          SockCreate 9 2; SockConnect 9 addr_2; SockClose 9;
          SockCreate 10 2; SockConnect 10 addr_3; SockSetBlocking 10 false]
    /\ connects (world st') = [Done tt].
Proof.
  assert (Hscript : dial_script (mkState closed_connection dial_world [])
                      [eintr] sample_candidates [] [] []).
  { repeat split; repeat constructor. }
  apply (proj1 (proj2 (adapter_connect_candidates
                  (mkState closed_connection dial_world [])
                  [eintr] sample_candidates [] [] []
                  eq_refl eq_refl Hscript))
           [(addr_1, ConnectFails connect_timed_out);
            (addr_2, ConnectFails connection_refused)]
           (addr_3, Connects [] (Done tt))
           [(addr_4, Connects [] (Done tt))]).
  - reflexivity.
  - repeat constructor; discriminate.
  - reflexivity.
Defined.


(** ** The event mask across the handlers *)



Lemma untouched_bind : forall {A B} (m : M A) (k : A -> M B) (c : Connection) (st : State),
  untouched c (m st) ->
  (forall a st1, self st1 = c \/ self st1 = reset c -> untouched c (k a st1)) ->
  untouched c (bind m k st).
Proof.
  intros A B m k c st Hm Hk. unfold bind.
  destruct (m st) as [[a|e|] st1]; cbn in *; auto.
Qed.

Lemma handle_disconnect_untouched : forall (st : State) (c : Connection),
  self st = c \/ self st = reset c -> untouched c (_handle_disconnect st).
Proof.
  intros st c Hk. rewrite handle_disconnect_effect.
  destruct (connection_state (self st)); cbn; try exact I; right;
    destruct Hk as [Hk|Hk]; rewrite Hk; destruct c; reflexivity.
Qed.

Lemma handle_error_untouched : forall (error : error_value) (st : State),
  untouched (self st) (_handle_error error st).
Proof.
  intros error st.
  assert (Hcases : not_an_error_number error \/ exists n, error = ErrInt n /\ n <> 0).
  { destruct error as [|n|e]; try (left; intros m Hm; discriminate Hm).
    destruct (Z.eq_dec n 0) as [->|Hn]; [left; intros m Hm; congruence|].
    right. eauto. }
  destruct Hcases as [Hn|(n & -> & Hn)].
  - destruct (handle_error_cases error st Hn)
      as [[tr ->]|[[tr ->]|(e & st' & -> & He)]]; cbn; auto.
  - unfold _handle_error, timed_out_in_str, _get_error_code.
    destruct (Z.eqb_spec n 0); [contradiction|]. exact I.
Qed.




Lemma handle_read_untouched : forall (st : State) (sock : Socket),
  socket (self st) = Some sock -> untouched (self st) (_handle_read st).
Proof.
  intros [c w tr] sock Hs; cbn in Hs. cbn [self].
  unfold _handle_read.
  unfold bind at 1, ask at 1. cbn [self world trace].
  unfold bind at 1, attempt at 1.
  pose proof (recv_retrying_self (S (List.length (recvs w)))
                (mkState c w tr) sock Hs) as Hrecv.
  cbn [self world] in Hrecv. specialize (Hrecv ltac:(lia)).
  destruct (recv_retrying _ _) as [[data|e|] [c1 w1 tr1]]; cbn in Hrecv;
    [| |exact I].
  - destruct Hrecv as [-> _]. destruct data as [|b data].
    + apply untouched_bind; [run; left; reflexivity|].
      intros _ st1 Hk. apply untouched_bind.
      * apply handle_disconnect_untouched. exact Hk.
      * intros _ st2 Hk2. exact Hk2.
    + run. left; reflexivity.
  - destruct e as [err| | | | | |]; try contradiction. destruct Hrecv as [-> _].
    assert (Hc : c = c \/ c = reset c) by (left; reflexivity).
    assert (He : untouched c ((_handle_error (ErrExc err) ;; ret (@None Z))
                                (mkState c w1 tr1))).
    { pose proof (handle_error_untouched (ErrExc err) (mkState c w1 tr1)) as He.
      unfold bind, untouched in *. cbn [self] in He.
      destruct (_handle_error (ErrExc err) _) as [[u|e|] st']; try exact I.
      exact He. }
    destruct (is_timeout err); [exact Hc|].
    destruct (is_SSLError err).
    { destruct (arg0_is err ssl.SSL_ERROR_WANT_READ); [exact Hc|exact He]. }
    destruct (errno_is err errno.EAGAIN || errno_is err errno.EWOULDBLOCK);
      [exact Hc|exact He].
Qed.











(** ** The loops never want fuel *)

Lemma manage_event_state_world : forall st : State,
  match _manage_event_state st with
  | (Pending, _) => False
  | (_, st') => world st' = world st
  end.
Proof.
  intros [c w tr]. unfold _manage_event_state; run.
  destruct (outbound_buffer c), (truthy (Z.land (event_state c) WRITE)); cbn;
    try reflexivity;
    destruct (ioloop c); cbn; try reflexivity;
    destruct (socket c); cbn; reflexivity.
Qed.

Lemma ssl_handshake_loop_pending : forall (fuel : nat) (st st' : State),
  (List.length (handshakes (world st)) < fuel)%nat ->
  ssl_handshake_loop fuel st = (Pending, st') ->
  handshakes (world st') = [].
Proof.
  induction fuel as [|fuel IH]; intros [c w tr] st' Hf; [cbn in Hf; lia|].
  cbn in Hf. unfold ssl_handshake_loop; fold ssl_handshake_loop; run.
  destruct (socket c) as [sock|]; cbn; [|discriminate].
  destruct (handshakes w) as [|[u|e] later] eqn:Hh; cbn.
  - intros H; inversion H; subst; cbn. exact Hh.
  - discriminate.
  - destruct (is_SSLError e); [|discriminate].
    set (hint := if arg0_is e ssl.SSL_ERROR_WANT_READ then Some READ
                 else if arg0_is e ssl.SSL_ERROR_WANT_WRITE then Some WRITE
                 else None).
    assert (Hhint :
      (if arg0_is e ssl.SSL_ERROR_WANT_READ
       then update_self (with_event_state READ)
       else if arg0_is e ssl.SSL_ERROR_WANT_WRITE
            then update_self (with_event_state WRITE)
            else raise (OSExc e))
      = match hint with
        | Some m => update_self (with_event_state m)
        | None => raise (OSExc e)
        end).
    { unfold hint. destruct (arg0_is e ssl.SSL_ERROR_WANT_READ); [reflexivity|].
      destruct (arg0_is e ssl.SSL_ERROR_WANT_WRITE); reflexivity. }
    unfold update_self, raise in Hhint. rewrite Hhint. clear Hhint.
    destruct hint as [m|]; cbn; [|discriminate].
    match goal with
    | |- context [_manage_event_state ?s] =>
        pose proof (manage_event_state_world s) as Hm;
        destruct (_manage_event_state s) as [[u|ex|] [c2 w2 tr2]]
    end; cbn in Hm; [|discriminate|contradiction].
    subst w2. apply IH. destruct w; cbn in *. lia.
Qed.

Lemma resolve_loop_pending : forall (fuel : nat) (st st' : State),
  (List.length (resolves (world st)) < fuel)%nat ->
  resolve_loop fuel st = (Pending, st') ->
  resolves (world st') = [].
Proof.
  induction fuel as [|fuel IH]; intros [c w tr] st' Hf; [cbn in Hf; lia|].
  cbn in Hf. unfold resolve_loop; fold resolve_loop; run.
  destruct (resolves w) as [|[a|e] later] eqn:Hr; cbn.
  - intros H; inversion H; subst; cbn. exact Hr.
  - discriminate.
  - destruct (errno_is e errno.EINTR); [|discriminate].
    apply IH. destruct w; cbn in *. lia.
Qed.

(** * Further properties *)

(** ** The write path: whole frames *)

Lemma write_loop_full :
  forall (done : list bytes) (fuel : nat) (acc : Z) c w tr sock
         (rest : list bytes) (later : list (outcome Z)),
    socket c = Some sock ->
    outbound_buffer c = done ++ rest ->
    sends w = full_sends done ++ later ->
    write_loop (List.length done + fuel) acc (mkState c w tr)
    = write_loop fuel (acc + total done)
        (mkState (with_outbound_buffer rest c) (with_sends later w)
           (tr ++ send_calls (fileno sock) done)).
Proof.
  induction done as [|frame done IH]; intros fuel acc c w tr sock rest later Hs Hq Hw.
  - cbn in Hq, Hw. cbn [List.length Nat.add total fold_right send_calls map].
    rewrite Z.add_0_r, app_nil_r. subst.
    destruct c, w; reflexivity.
  - cbn [List.length Nat.add write_loop].
    unfold bind at 1, gets at 1. cbn [self]. rewrite Hq. cbn [app].
    unfold bind at 1, update_self at 1. cbn [self world trace].
    unfold bind at 1, ask at 1. cbn [self world trace].
    unfold bind at 1, attempt at 1.
    assert (Hs' : socket (with_outbound_buffer (done ++ rest) c) = Some sock)
      by (destruct c; exact Hs).
    rewrite (send_retrying_final [] (S (List.length (sends w)))
               (mkState (with_outbound_buffer (done ++ rest) c) w tr)
               sock frame (Done (len frame)) (full_sends done ++ later)
               Hs' (Forall_nil _) I Hw ltac:(cbn; lia)).
    cbn [delivered self world trace]. rewrite Z.ltb_irrefl.
    assert (Hq' : outbound_buffer (with_outbound_buffer (done ++ rest) c)
                  = done ++ rest) by (destruct c; reflexivity).
    assert (Hw' : sends (with_sends (full_sends done ++ later) w)
                  = full_sends done ++ later) by (destruct w; reflexivity).
    rewrite (IH fuel (acc + len frame) _ _ _ sock rest later Hs' Hq' Hw').
    replace (acc + len frame + total done) with (acc + total (frame :: done))
      by (cbn [total fold_right]; fold (total done); lia).
    replace (with_outbound_buffer rest (with_outbound_buffer (done ++ rest) c))
      with (with_outbound_buffer rest c) by (destruct c; reflexivity).
    replace (with_sends later (with_sends (full_sends done ++ later) w))
      with (with_sends later w) by (destruct w; reflexivity).
    unfold send_calls. cbn [List.length repeat map]. norm_app. reflexivity.
Qed.

(** X1: when the socket takes every frame whole, one call of the write
    handler sends the frames of the queue in their order, each once, leaves
    the queue empty and returns the number of bytes of all of them. *)
Theorem handle_write_flushes_in_order :
  forall (st : State) (sock : Socket) (frames : list bytes)
         (later : list (outcome Z)),
    socket (self st) = Some sock ->
    outbound_buffer (self st) = frames ->
    sends (world st) = full_sends frames ++ later ->
    _handle_write st =
    (Ok (Some (total frames)),
     mkState (with_outbound_buffer [] (self st)) (with_sends later (world st))
       (trace st ++ send_calls (fileno sock) frames)).
Proof.
  intros [c w tr] sock frames later Hs Hq Hw; cbn [self world trace] in *.
  unfold _handle_write, bind, ask; cbn [self world trace].
  rewrite Hw. unfold full_sends at 1. rewrite length_app, length_map.
  change (S (List.length frames + List.length later))
    with (S (List.length frames) + List.length later)%nat.
  replace (S (List.length frames) + List.length later)%nat
    with (List.length frames + S (List.length later))%nat by lia.
  rewrite (write_loop_full frames _ 0 c w tr sock [] later Hs);
    [|rewrite app_nil_r; exact Hq|exact Hw].
  cbn [write_loop]. unfold bind, gets, ret; cbn [self].
  destruct c; reflexivity.
Qed.

(** The fuel of [_handle_write] when the script starts with whole sends. *)
Lemma handle_write_after_full :
  forall (done : list bytes) c w tr sock (rest : list bytes)
         (later : list (outcome Z)),
    socket c = Some sock ->
    outbound_buffer c = done ++ rest ->
    sends w = full_sends done ++ later ->
    _handle_write (mkState c w tr)
    = write_loop (S (List.length later)) (total done)
        (mkState (with_outbound_buffer rest c) (with_sends later w)
           (tr ++ send_calls (fileno sock) done)).
Proof.
  intros done c w tr sock rest later Hs Hq Hw.
  unfold _handle_write, bind, ask; cbn [self world trace].
  rewrite Hw. unfold full_sends at 1. rewrite length_app, length_map.
  replace (S (List.length done + List.length later))
    with (List.length done + S (List.length later))%nat by lia.
  rewrite (write_loop_full done _ 0 c w tr sock rest later Hs Hq Hw).
  reflexivity.
Qed.

(** One turn of the write loop on a frame that the socket takes in part. *)
Lemma write_loop_partial :
  forall (fuel : nat) (acc : Z) c w tr sock (A : bytes) (rest : list bytes)
         (intr : list OSErr) (k : Z) (later : list (outcome Z)),
    socket c = Some sock ->
    outbound_buffer c = A :: rest ->
    Forall interrupted intr ->
    sends w = map Fails intr ++ Done k :: later ->
    0 <= k < len A ->
    write_loop (S fuel) acc (mkState c w tr)
    = (Ok (Some (acc + k)),
       mkState (with_outbound_buffer (skipn (Z.to_nat k) A :: rest) c)
         (with_sends later w)
         (tr ++ repeat (SockSend (fileno sock) A) (S (List.length intr))
             ++ [Log DEBUG "Partial write, requeing remaining data"])).
Proof.
  intros fuel acc c w tr sock A rest intr k later Hs Hq Hi Hw Hk.
  cbn [write_loop]; run. rewrite Hq; cbn.
  erewrite send_retrying_final with (sock := sock) (intr := intr)
    (o := Done k) (later := later); cbn; eauto.
  - destruct (Z.ltb_spec k (len A)) as [_|Hge]; [|lia].
    unfold slice_from. destruct (Z.leb_spec 0 k) as [_|Hneg]; [|lia].
    destruct c; cbn in *. norm_app. reflexivity.
  - rewrite Hw, length_app, length_map. cbn. lia.
Qed.

(** One turn of the write loop on a frame that the socket does not take. *)
Lemma write_loop_blocked :
  forall (fuel : nat) (acc : Z) c w tr sock (A : bytes) (rest : list bytes)
         (intr : list OSErr) (e : OSErr) (later : list (outcome Z)),
    socket c = Some sock ->
    outbound_buffer c = A :: rest ->
    Forall interrupted intr ->
    sends w = map Fails intr ++ Fails e :: later ->
    blocks e ->
    write_loop (S fuel) acc (mkState c w tr)
    = (Ok (Some acc),
       mkState c (with_sends later w)
         (tr ++ repeat (SockSend (fileno sock) A) (S (List.length intr))
             ++ [requeue_log e])).
Proof.
  intros fuel acc c w tr sock A rest intr e later Hs Hq Hi Hw [He Hb].
  cbn [write_loop]; run. rewrite Hq; cbn.
  erewrite send_retrying_final with (sock := sock) (intr := intr)
    (o := Fails e) (later := later); cbn; eauto.
  - unfold requeue_log, _handle_timeout.
    destruct (is_timeout e); run.
    + destruct c; cbn in *; subst. norm_app. reflexivity.
    + destruct Hb as [Hb|Hb]; [discriminate|]. rewrite Hb; cbn.
      destruct c; cbn in *; subst. norm_app. reflexivity.
  - rewrite Hw, length_app, length_map. cbn. lia.
Qed.

(** X2: the write handler stops at the first frame that the socket does not
    take whole.  After the frames it took whole, a send of the next frame
    that transmits only [k] of its bytes leaves the rest of that frame at
    the front of the remaining queue, and the handler returns the bytes of
    the whole frames plus [k]. *)
Theorem handle_write_stops_at_partial :
  forall (st : State) (sock : Socket) (done : list bytes) (A : bytes)
         (rest : list bytes) (intr : list OSErr) (k : Z)
         (later : list (outcome Z)),
    socket (self st) = Some sock ->
    outbound_buffer (self st) = done ++ A :: rest ->
    Forall interrupted intr ->
    sends (world st) = full_sends done ++ map Fails intr ++ Done k :: later ->
    0 <= k < len A ->
    _handle_write st =
    (Ok (Some (total done + k)),
     mkState (with_outbound_buffer (skipn (Z.to_nat k) A :: rest) (self st))
       (with_sends later (world st))
       (trace st ++ send_calls (fileno sock) done
          ++ repeat (SockSend (fileno sock) A) (S (List.length intr))
          ++ [Log DEBUG "Partial write, requeing remaining data"])).
Proof.
  intros [c w tr] sock done A rest intr k later Hs Hq Hi Hw Hk;
    cbn [self world trace] in *.
  rewrite (handle_write_after_full done c w tr sock (A :: rest) _ Hs Hq Hw).
  assert (Hs' : socket (with_outbound_buffer (A :: rest) c) = Some sock)
    by (destruct c; exact Hs).
  assert (Hq' : outbound_buffer (with_outbound_buffer (A :: rest) c) = A :: rest)
    by (destruct c; reflexivity).
  assert (Hw' : sends (with_sends (map Fails intr ++ Done k :: later) w)
                = map Fails intr ++ Done k :: later) by (destruct w; reflexivity).
  rewrite (write_loop_partial _ _ _ _ _ sock A rest intr k later Hs' Hq' Hi Hw' Hk).
  replace (with_outbound_buffer (skipn (Z.to_nat k) A :: rest)
             (with_outbound_buffer (A :: rest) c))
    with (with_outbound_buffer (skipn (Z.to_nat k) A :: rest) c)
    by (destruct c; reflexivity).
  replace (with_sends later (with_sends (map Fails intr ++ Done k :: later) w))
    with (with_sends later w) by (destruct w; reflexivity).
  norm_app. reflexivity.
Qed.

(** X3: when the send of a frame would block ([EAGAIN], [EWOULDBLOCK]) or
    times out, after the frames that the socket took whole, the write
    handler puts that frame back at the front: the queue is the frame and
    what followed it, nothing is lost, and the handler returns the bytes of
    the whole frames. *)
Theorem handle_write_requeues_blocked :
  forall (st : State) (sock : Socket) (done : list bytes) (A : bytes)
         (rest : list bytes) (intr : list OSErr) (e : OSErr)
         (later : list (outcome Z)),
    socket (self st) = Some sock ->
    outbound_buffer (self st) = done ++ A :: rest ->
    Forall interrupted intr ->
    sends (world st) = full_sends done ++ map Fails intr ++ Fails e :: later ->
    blocks e ->
    _handle_write st =
    (Ok (Some (total done)),
     mkState (with_outbound_buffer (A :: rest) (self st))
       (with_sends later (world st))
       (trace st ++ send_calls (fileno sock) done
          ++ repeat (SockSend (fileno sock) A) (S (List.length intr))
          ++ [requeue_log e])).
Proof.
  intros [c w tr] sock done A rest intr e later Hs Hq Hi Hw Hb;
    cbn [self world trace] in *.
  rewrite (handle_write_after_full done c w tr sock (A :: rest) _ Hs Hq Hw).
  assert (Hs' : socket (with_outbound_buffer (A :: rest) c) = Some sock)
    by (destruct c; exact Hs).
  assert (Hq' : outbound_buffer (with_outbound_buffer (A :: rest) c) = A :: rest)
    by (destruct c; reflexivity).
  assert (Hw' : sends (with_sends (map Fails intr ++ Fails e :: later) w)
                = map Fails intr ++ Fails e :: later) by (destruct w; reflexivity).
  rewrite (write_loop_blocked _ _ _ _ _ sock A rest intr e later Hs' Hq' Hi Hw' Hb).
  replace (with_sends later (with_sends (map Fails intr ++ Fails e :: later) w))
    with (with_sends later w) by (destruct w; reflexivity).
  norm_app. reflexivity.
Qed.

(** X4: a send that fails with an error without a code (its [errno] is
    [None] or 0, it is no timeout and its text does not hold 'timed out')
    costs the frame: the error handler finds no error to handle and
    returns, the write handler returns [None], and the frame that was
    popped is not put back, while the socket stays open. *)
Theorem handle_write_drops_frame_on_codeless_error :
  forall (st : State) (sock : Socket) (A : bytes) (rest : list bytes)
         (e : OSErr) (later : list (outcome Z)),
    socket (self st) = Some sock ->
    outbound_buffer (self st) = A :: rest ->
    sends (world st) = Fails e :: later ->
    is_timeout e = false ->
    no_code (err_errno e) = true ->
    str_contains "timed out" (err_text e) = false ->
    _handle_write st =
    (Ok None,
     mkState (with_outbound_buffer rest (self st)) (with_sends later (world st))
       (trace st ++ [SockSend (fileno sock) A;
                     Log CRITICAL "Tried to handle an error where no error existed"])).
Proof.
  intros [c w tr] sock A rest e later Hs Hq Hw Ht Hn Htext;
    cbn [self world trace] in *.
  assert (Hcode : forall code, code <> 0 -> errno_is e code = false).
  { intros code Hc. unfold errno_is. unfold no_code in Hn.
    destruct (err_errno e) as [z|]; [|reflexivity].
    apply Z.eqb_eq in Hn. subst z. apply Z.eqb_neq. auto. }
  unfold _handle_write; run. rewrite Hw. cbn [List.length write_loop]; run.
  rewrite Hq; cbn.
  rewrite (send_retrying_final [] _ _ sock A (Fails e) later);
    [|destruct c; exact Hs|constructor|apply Hcode; discriminate
     |exact Hw|cbn; lia].
  cbn. rewrite Ht, !Hcode by discriminate. cbn.
  unfold _handle_error, timed_out_in_str, _get_error_code. rewrite Htext.
  unfold bind at 1, ret. rewrite Hn. run.
  destruct c, w; cbn in *. norm_app. reflexivity.
Qed.

(** ** The write path: the order of the bytes *)

Lemma tail_of_refl : forall q, tail_of q q.
Proof. intros q. exists []. reflexivity. Qed.

Lemma tail_of_trans : forall q1 q2 q3,
  tail_of q1 q2 -> tail_of q2 q3 -> tail_of q1 q3.
Proof.
  intros q1 q2 q3 [s1 H1] [s2 H2]. exists (s1 ++ s2).
  rewrite H1, H2, app_assoc. reflexivity.
Qed.

Lemma tail_of_nil : forall q, tail_of q [].
Proof. intros q. exists (flat q). cbn. rewrite app_nil_r. reflexivity. Qed.

Lemma tail_of_drop : forall frame q, tail_of (frame :: q) q.
Proof. intros frame q. exists frame. reflexivity. Qed.

Lemma tail_of_slice : forall frame bw q,
  tail_of (frame :: q) (slice_from frame bw :: q).
Proof.
  intros frame bw q. unfold slice_from.
  destruct (0 <=? bw).
  - exists (firstn (Z.to_nat bw) frame). unfold flat; cbn.
    rewrite app_assoc, firstn_skipn. reflexivity.
  - exists (firstn (Z.to_nat (Z.max 0 (len frame + bw))) frame). unfold flat; cbn.
    rewrite app_assoc, firstn_skipn. reflexivity.
Qed.

Lemma untouched_tails : forall {A} (c : Connection) (r : Res A * State),
  untouched c r -> tails (outbound_buffer c) r.
Proof.
  intros A c [[a|e|] st'] Hu; cbn in *; try exact I.
  destruct Hu as [-> | ->]; [apply tail_of_refl|apply tail_of_nil].
Qed.

Lemma tails_bind : forall {A B} (m : M A) (k : A -> M B) (q : list bytes) (st : State),
  tails q (m st) ->
  (forall a st1, tail_of q (outbound_buffer (self st1)) -> tails q (k a st1)) ->
  tails q (bind m k st).
Proof.
  intros A B m k q st Hm Hk. unfold bind.
  destruct (m st) as [[a|e|] st1]; cbn in *; auto.
Qed.

Lemma tails_trans : forall {A} (q1 q2 : list bytes) (r : Res A * State),
  tail_of q1 q2 -> tails q2 r -> tails q1 r.
Proof.
  intros A q1 q2 [[a|e|] st'] H1 H2; cbn in *; try exact I.
  apply (tail_of_trans _ q2); assumption.
Qed.

Lemma write_loop_tails : forall (fuel : nat) (bytes_written : Z) (st : State) (sock : Socket),
  socket (self st) = Some sock ->
  tails (outbound_buffer (self st)) (write_loop fuel bytes_written st).
Proof.
  induction fuel as [|fuel IH]; intros acc [c w tr] sock Hs; [exact I|].
  cbn [write_loop]. cbn in Hs. cbn [self]. unfold bind at 1, gets at 1. cbn [self].
  destruct (outbound_buffer c) as [|frame rest] eqn:Hq;
    [cbn; rewrite Hq; apply tail_of_refl|].
  unfold bind at 1, update_self at 1. cbn [self world trace].
  unfold bind at 1, ask at 1. cbn [self world trace].
  unfold bind at 1, attempt at 1.
  pose proof (send_retrying_self (S (List.length (sends w))) frame
                (mkState (with_outbound_buffer rest c) w tr) sock) as Hsend.
  cbn [self world] in Hsend.
  assert (Hs' : socket (with_outbound_buffer rest c) = Some sock)
    by (destruct c; exact Hs).
  assert (Hq' : outbound_buffer (with_outbound_buffer rest c) = rest)
    by (destruct c; reflexivity).
  specialize (Hsend Hs' ltac:(lia)).
  destruct (send_retrying _ frame _) as [[bw|e|] [c1 w1 tr1]]; cbn in Hsend;
    [| |exact I].
  - destruct Hsend as [-> _].
    destruct (bw <? len frame).
    + run. destruct c; cbn. apply tail_of_slice.
    + apply (tails_trans _ rest); [apply tail_of_drop|].
      specialize (IH (acc + bw) (mkState (with_outbound_buffer rest c) w1 tr1) sock Hs').
      cbn [self] in IH. rewrite Hq' in IH. exact IH.
  - destruct e as [err| | | | | |]; try contradiction. destruct Hsend as [-> _].
    destruct (is_timeout err).
    { run. destruct c; cbn. apply tail_of_refl. }
    destruct (errno_is err errno.EAGAIN || errno_is err errno.EWOULDBLOCK).
    { run. destruct c; cbn. apply tail_of_refl. }
    apply (tails_trans _ rest); [apply tail_of_drop|].
    pose proof (handle_error_untouched (ErrExc err)
                  (mkState (with_outbound_buffer rest c) w1 tr1)) as He.
    apply untouched_tails in He. cbn [self] in He. rewrite Hq' in He.
    unfold bind. unfold tails in *.
    destruct (_handle_error (ErrExc err) _) as [[u|e|] st']; try exact I.
    exact He.
Qed.

Lemma handle_write_tails : forall (st : State) (sock : Socket),
  socket (self st) = Some sock ->
  tails (outbound_buffer (self st)) (_handle_write st).
Proof.
  intros st sock Hs. unfold _handle_write, bind, ask.
  apply (write_loop_tails _ _ st sock Hs).
Qed.

Lemma manage_event_state_buffer : forall st : State,
  tails (outbound_buffer (self st)) (_manage_event_state st).
Proof.
  intros [c w tr]. unfold _manage_event_state; run.
  destruct (outbound_buffer c) eqn:Hq, (truthy (Z.land (event_state c) WRITE)); cbn;
    rewrite ?Hq; try apply tail_of_refl;
    destruct (ioloop c); cbn; try exact I;
    destruct (socket c); cbn; try exact I;
    destruct c; cbn in *; subst; apply tail_of_refl.
Qed.

Lemma tails_when : forall (cond : bool) (body : M unit) (q : list bytes) (st : State),
  tail_of q (outbound_buffer (self st)) ->
  (cond = true -> tails q (body st)) ->
  tails q (when cond body st).
Proof.
  intros cond body q st Hst Hb. unfold when.
  destruct cond; [apply Hb; reflexivity|exact Hst].
Qed.

Lemma flush_outbound_tails : forall (st : State) (sock : Socket),
  socket (self st) = Some sock ->
  tails (outbound_buffer (self st)) (_flush_outbound st).
Proof.
  intros st sock Hs. unfold _flush_outbound. apply tails_bind.
  - apply (handle_write_tails st sock Hs).
  - intros _ st1 H1.
    apply (tails_trans _ (outbound_buffer (self st1))); [exact H1|].
    apply manage_event_state_buffer.
Qed.

Lemma handle_events_tails :
  forall (st : State) (fd events : Z) (error : error_value) (write_only : bool),
    tails (outbound_buffer (self st))
      (_handle_events fd events error write_only st).
Proof.
  intros st fd events error wo.
  set (q := outbound_buffer (self st)).
  assert (Hst : tail_of q (outbound_buffer (self st))) by apply tail_of_refl.
  unfold _handle_events. rewrite bind_has_socket.
  destruct (negb (socket_open (self st))); [exact Hst|].
  rewrite bind_has_socket. apply tails_bind.
  { apply tails_when; [exact Hst|]. intros Hc.
    apply andb_prop in Hc. destruct Hc as [Hc _].
    destruct (socket_open_true _ Hc) as [sock Hs].
    apply (flush_outbound_tails st sock Hs). }
  intros _ st1 Hst1. rewrite bind_has_socket. apply tails_bind.
  { apply tails_when; [exact Hst1|]. intros Hc.
    apply andb_prop in Hc. destruct Hc as [Hc _].
    apply andb_prop in Hc. destruct Hc as [Hc _].
    destruct (socket_open_true _ Hc) as [sock Hs].
    apply tails_bind.
    - apply (tails_trans _ (outbound_buffer (self st1))); [exact Hst1|].
      apply untouched_tails. apply (handle_read_untouched st1 sock Hs).
    - intros _ st' Hst'. exact Hst'. }
  intros _ st2 Hst2. rewrite bind_has_socket. apply tails_bind.
  { apply tails_when; [exact Hst2|]. intros _.
    apply tails_bind; [exact Hst2|].
    intros _ st' Hst'.
    apply (tails_trans _ (outbound_buffer (self st'))); [exact Hst'|].
    apply untouched_tails. apply handle_disconnect_untouched. left; reflexivity. }
  intros _ st3 Hst3. rewrite bind_has_socket.
  apply tails_when; [exact Hst3|]. intros _.
  apply tails_bind; [exact Hst3|].
  intros _ st' Hst'.
  apply (tails_trans _ (outbound_buffer (self st'))); [exact Hst'|].
  apply untouched_tails. apply handle_error_untouched.
Qed.

(** X5: whatever the socket does, the write handler, the flush and the
    event handler never reorder or duplicate pending bytes: when one of
    them returns, the bytes left in the queue are a tail of the bytes that
    were pending when it was called. *)
Theorem pending_bytes_stay_in_order :
  forall (st st' : State) (sock : Socket),
    socket (self st) = Some sock ->
    (forall r, _handle_write st = (Ok r, st') ->
               tail_of (outbound_buffer (self st)) (outbound_buffer (self st')))
    /\ (_flush_outbound st = (Ok tt, st') ->
        tail_of (outbound_buffer (self st)) (outbound_buffer (self st')))
    /\ (forall fd events error write_only,
          _handle_events fd events error write_only st = (Ok tt, st') ->
          tail_of (outbound_buffer (self st)) (outbound_buffer (self st'))).
Proof.
  intros st st' sock Hs. split; [|split].
  - intros r H. pose proof (handle_write_tails st sock Hs) as Ht.
    rewrite H in Ht. exact Ht.
  - intros H. pose proof (flush_outbound_tails st sock Hs) as Ht.
    rewrite H in Ht. exact Ht.
  - intros fd events error wo H.
    pose proof (handle_events_tails st fd events error wo) as Ht.
    rewrite H in Ht. exact Ht.
Qed.

(** ** The socket is closed at most once *)

Lemma closed_at_most_once_refl : forall st,
  closed_at_most_once (socket (self st)) (trace st) st.
Proof.
  intros st. exists []. rewrite app_nil_r. split; [reflexivity|].
  left. split; reflexivity.
Qed.

Lemma closed_at_most_once_trans : forall s0 tr0 st1 st2,
  closed_at_most_once s0 tr0 st1 ->
  closed_at_most_once (socket (self st1)) (trace st1) st2 ->
  closed_at_most_once s0 tr0 st2.
Proof.
  intros s0 tr0 st1 st2 (evs1 & Ht1 & H1) (evs2 & Ht2 & H2).
  exists (evs1 ++ evs2). split; [rewrite Ht2, Ht1, app_assoc; reflexivity|].
  unfold closes in *. rewrite count_app.
  destruct H1 as [[Hc1 Hs1]|(Hc1 & Hs1 & Hn1)];
    destruct H2 as [[Hc2 Hs2]|(Hc2 & Hs2 & Hn2)].
  - left. split; [lia|congruence].
  - right. repeat split; [lia|assumption|congruence].
  - right. repeat split; [lia|congruence|assumption].
  - congruence.
Qed.

Lemma steady_ret : forall {A} (a : A), steady (ret a).
Proof. intros A a st. apply closed_at_most_once_refl. Qed.

Lemma steady_raise : forall {A} (e : exn), steady (@raise A e).
Proof. intros A e st. apply closed_at_most_once_refl. Qed.

Lemma steady_pending : forall {A}, steady (@pending A).
Proof. intros A st. exact I. Qed.

Lemma steady_bind : forall {A B} (m : M A) (k : A -> M B),
  steady m -> (forall a, steady (k a)) -> steady (bind m k).
Proof.
  intros A B m k Hm Hk st. specialize (Hm st). unfold bind.
  destruct (m st) as [[a|e|] st1]; cbn in *; auto.
  specialize (Hk a st1).
  destruct (k a st1) as [[b|e|] st2]; cbn in *; auto;
    apply (closed_at_most_once_trans _ _ st1); assumption.
Qed.

Lemma steady_gets : forall {A} (f : Connection -> A), steady (gets f).
Proof. intros A f st. apply closed_at_most_once_refl. Qed.

Lemma steady_ask : forall {A} (f : World -> A), steady (ask f).
Proof. intros A f st. apply closed_at_most_once_refl. Qed.

Lemma steady_emit : forall e, is_SockClose e = false -> steady (emit e).
Proof.
  intros e He st. exists [e]. split; [reflexivity|].
  left. split; [|reflexivity]. unfold closes, count; cbn. rewrite He. reflexivity.
Qed.

Lemma steady_log : forall lv msg, steady (log lv msg).
Proof. intros lv msg. apply steady_emit. reflexivity. Qed.

Lemma steady_update_self : forall f : Connection -> Connection,
  (forall c, socket (f c) = socket c) -> steady (update_self f).
Proof.
  intros f Hf st. exists []. cbn. rewrite app_nil_r. split; [reflexivity|].
  left. split; [reflexivity|apply Hf].
Qed.

Lemma steady_take : forall {A} (script : World -> list (outcome A)) rest,
  steady (take script rest).
Proof.
  intros A script rest st. unfold take.
  destruct (script (world st)) as [|[a|e] l]; cbn; try exact I;
    exists []; cbn; rewrite app_nil_r; (split; [reflexivity|]);
    left; split; reflexivity.
Qed.

Lemma steady_attempt : forall {A} (m : M A), steady m -> steady (attempt m).
Proof.
  intros A m Hm st. specialize (Hm st). unfold attempt.
  destruct (m st) as [[a|e|] st1]; cbn in *; auto.
Qed.

Lemma steady_try_except : forall {A} (body : M A) (handler : exn -> option (M A)),
  steady body ->
  (forall e h, handler e = Some h -> steady h) ->
  steady (try_except body handler).
Proof.
  intros A body handler Hb Hh st. specialize (Hb st). unfold try_except.
  destruct (body st) as [[a|e|] st1]; cbn in *; auto.
  destruct (handler e) as [h|] eqn:E; [|exact Hb].
  specialize (Hh e h E st1).
  destruct (h st1) as [[b|e'|] st2]; cbn in *; auto;
    apply (closed_at_most_once_trans _ _ st1); assumption.
Qed.

Lemma steady_when : forall (cond : bool) (body : M unit),
  steady body -> steady (when cond body).
Proof. intros [] body Hb; [exact Hb|apply steady_ret]. Qed.

Lemma steady_the_socket : steady the_socket.
Proof.
  unfold the_socket. apply steady_bind; [apply steady_gets|].
  intros [sock|]; [apply steady_ret|apply steady_raise].
Qed.

Lemma steady_socket_send : forall frame, steady (socket_send frame).
Proof.
  intros frame. unfold socket_send.
  apply steady_bind; [apply steady_the_socket|]. intros sock.
  apply steady_bind; [apply steady_emit; reflexivity|]. intros _.
  apply steady_take.
Qed.

Lemma steady_socket_recv : steady socket_recv.
Proof.
  unfold socket_recv.
  apply steady_bind; [apply steady_the_socket|]. intros sock.
  apply steady_bind; [apply steady_emit; reflexivity|]. intros _.
  apply steady_take.
Qed.

Lemma steady_send_retrying : forall fuel frame, steady (send_retrying fuel frame).
Proof.
  induction fuel as [|fuel IH]; intros frame; [apply steady_pending|].
  unfold send_retrying; fold send_retrying.
  apply steady_try_except; [apply steady_socket_send|].
  intros [err| | | | | |] h; try discriminate.
  destruct (errno_is err errno.EINTR); [|discriminate].
  intros H; inversion H; subst. apply IH.
Qed.

Lemma steady_recv_retrying : forall fuel, steady (recv_retrying fuel).
Proof.
  induction fuel as [|fuel IH]; [apply steady_pending|].
  unfold recv_retrying; fold recv_retrying.
  apply steady_try_except; [apply steady_socket_recv|].
  intros [err| | | | | |] h; try discriminate.
  destruct (errno_is err errno.EINTR); [|discriminate].
  intros H; inversion H; subst. apply IH.
Qed.

Lemma closes_disconnect_calls : forall c,
  closes (disconnect_calls c ++ closed_callback (connection_state c))
  = match socket c with Some _ => 1%nat | None => 0%nat end.
Proof.
  intros c. unfold closes, disconnect_calls.
  destruct (socket c); cbn [closing_calls]; count_calls.
Qed.

Lemma steady_handle_disconnect : steady _handle_disconnect.
Proof.
  intros st. rewrite handle_disconnect_effect.
  assert (H : closed_at_most_once (socket (self st)) (trace st)
                (mkState (reset (self st)) (world st)
                   (trace st ++ disconnect_calls (self st)
                      ++ closed_callback (connection_state (self st))))).
  { eexists. split; [reflexivity|]. rewrite closes_disconnect_calls.
    destruct (socket (self st)) as [sock|].
    - right. repeat split. discriminate.
    - left. split; reflexivity. }
  destruct (phase_signal (connection_state (self st))); exact H.
Qed.

Lemma socket_with_event_state : forall m c, socket (with_event_state m c) = socket c.
Proof. intros m []; reflexivity. Qed.

Lemma socket_with_outbound_buffer : forall q c,
  socket (with_outbound_buffer q c) = socket c.
Proof. intros q []; reflexivity. Qed.

Lemma steady_handle_error : forall error, steady (_handle_error error).
Proof.
  intros error. unfold _handle_error.
  destruct (timed_out_in_str error); [apply steady_raise|].
  apply steady_bind.
  { unfold _get_error_code. destruct error as [|n|e];
      try apply steady_ret. destruct (n =? 0); [apply steady_ret|apply steady_raise]. }
  intros code. destruct (no_code code); [apply steady_log|].
  destruct (mem (code_of code) ERRORS_TO_IGNORE); [apply steady_log|].
  apply steady_bind; [apply steady_gets|]. intros use_ssl.
  apply steady_bind; [|intros _; apply steady_handle_disconnect].
  destruct (mem (code_of code) ERRORS_TO_ABORT); [apply steady_log|].
  destruct (use_ssl && isinstance_SSLError error); [|apply steady_log].
  destruct (error_arg0_is error ssl.SSL_ERROR_WANT_READ);
    [apply steady_update_self; apply socket_with_event_state|].
  destruct (error_arg0_is error ssl.SSL_ERROR_WANT_WRITE);
    [apply steady_update_self; apply socket_with_event_state|apply steady_log].
Qed.

Lemma steady_write_loop : forall fuel bytes_written,
  steady (write_loop fuel bytes_written).
Proof.
  induction fuel as [|fuel IH]; intros acc; [apply steady_pending|].
  cbn [write_loop].
  apply steady_bind; [apply steady_gets|]. intros [|frame rest]; [apply steady_ret|].
  apply steady_bind;
    [apply steady_update_self; apply socket_with_outbound_buffer|]. intros _.
  apply steady_bind; [apply steady_ask|]. intros script.
  apply steady_bind; [apply steady_attempt; apply steady_send_retrying|].
  intros [bw|[err| | | | | |]]; try apply steady_raise.
  - destruct (bw <? len frame); [|apply IH].
    apply steady_bind; [apply steady_log|]. intros _.
    apply steady_bind; [apply steady_gets|]. intros q.
    apply steady_bind;
      [apply steady_update_self; apply socket_with_outbound_buffer|]. intros _.
    apply steady_ret.
  - destruct (is_timeout err).
    { apply steady_bind; [apply steady_log|]. intros _.
      apply steady_bind; [apply steady_gets|]. intros q.
      apply steady_bind;
        [apply steady_update_self; apply socket_with_outbound_buffer|]. intros _.
      apply steady_bind; [apply steady_ret|]. intros _. apply steady_ret. }
    destruct (errno_is err errno.EAGAIN || errno_is err errno.EWOULDBLOCK).
    { apply steady_bind; [apply steady_log|]. intros _.
      apply steady_bind; [apply steady_gets|]. intros q.
      apply steady_bind;
        [apply steady_update_self; apply socket_with_outbound_buffer|]. intros _.
      apply steady_ret. }
    apply steady_bind; [apply steady_handle_error|]. intros _. apply steady_ret.
Qed.

Lemma steady_handle_write : steady _handle_write.
Proof.
  unfold _handle_write. apply steady_bind; [apply steady_ask|].
  intros script. apply steady_write_loop.
Qed.

Lemma steady_ioloop_update_handler : steady ioloop_update_handler.
Proof.
  unfold ioloop_update_handler. apply steady_bind; [apply steady_gets|].
  intros [|]; [|apply steady_raise].
  apply steady_bind; [apply steady_the_socket|]. intros sock.
  apply steady_bind; [apply steady_gets|]. intros mask.
  apply steady_emit. reflexivity.
Qed.

Lemma steady_manage_event_state : steady _manage_event_state.
Proof.
  unfold _manage_event_state.
  apply steady_bind; [apply steady_gets|]. intros buffer.
  apply steady_bind; [apply steady_gets|]. intros state.
  destruct buffer as [|frame rest].
  - destruct (truthy (Z.land state WRITE)); [|apply steady_ret].
    apply steady_bind; [apply steady_gets|]. intros base.
    apply steady_bind;
      [apply steady_update_self; apply socket_with_event_state|]. intros _.
    apply steady_ioloop_update_handler.
  - destruct (negb (truthy (Z.land state WRITE))); [|apply steady_ret].
    apply steady_bind;
      [apply steady_update_self; apply socket_with_event_state|]. intros _.
    apply steady_ioloop_update_handler.
Qed.

Lemma steady_flush_outbound : steady _flush_outbound.
Proof.
  unfold _flush_outbound. apply steady_bind; [apply steady_handle_write|].
  intros _. apply steady_manage_event_state.
Qed.

Lemma steady_handle_read : steady _handle_read.
Proof.
  unfold _handle_read. apply steady_bind; [apply steady_ask|]. intros script.
  apply steady_bind; [apply steady_attempt; apply steady_recv_retrying|].
  intros [data|[err| | | | | |]]; try apply steady_raise.
  - destruct data as [|b data].
    + apply steady_bind; [apply steady_log|]. intros _.
      apply steady_bind; [apply steady_handle_disconnect|]. intros _.
      apply steady_ret.
    + apply steady_bind; [apply steady_emit; reflexivity|]. intros _.
      apply steady_ret.
  - assert (He : steady (_handle_error (ErrExc err) ;; ret (@None Z))).
    { apply steady_bind; [apply steady_handle_error|]. intros _. apply steady_ret. }
    destruct (is_timeout err).
    { apply steady_bind; [apply steady_ret|]. intros _. apply steady_ret. }
    destruct (is_SSLError err).
    { destruct (arg0_is err ssl.SSL_ERROR_WANT_READ); [apply steady_ret|exact He]. }
    destruct (errno_is err errno.EAGAIN || errno_is err errno.EWOULDBLOCK);
      [apply steady_ret|exact He].
Qed.

Lemma steady_has_socket : steady has_socket.
Proof.
  unfold has_socket. apply steady_bind; [apply steady_gets|].
  intros s. apply steady_ret.
Qed.

Lemma steady_handle_events : forall fd events error write_only,
  steady (_handle_events fd events error write_only).
Proof.
  intros fd events error wo. unfold _handle_events.
  apply steady_bind; [apply steady_has_socket|]. intros open.
  destruct (negb open); [apply steady_log|].
  apply steady_bind; [apply steady_has_socket|]. intros open1.
  apply steady_bind.
  { apply steady_when. apply steady_flush_outbound. }
  intros _. apply steady_bind; [apply steady_has_socket|]. intros open2.
  apply steady_bind.
  { apply steady_when. apply steady_bind; [apply steady_handle_read|].
    intros _. apply steady_ret. }
  intros _. apply steady_bind; [apply steady_has_socket|]. intros open3.
  apply steady_bind.
  { apply steady_when. apply steady_bind; [apply steady_log|].
    intros _. apply steady_handle_disconnect. }
  intros _. apply steady_bind; [apply steady_has_socket|]. intros open4.
  apply steady_when. apply steady_bind; [apply steady_log|].
  intros _. apply steady_handle_error.
Qed.

(** X9: no step of the event handler closes the socket twice: from any
    state, [_handle_events], [_flush_outbound], [_handle_write],
    [_handle_read] and [_handle_error] either leave [self.socket] as it was
    and call [close] on no socket, or there was a socket, [close] is called
    exactly once and [self.socket] is [None] afterwards.  This holds as well
    when the step raises. *)
Theorem socket_closed_at_most_once :
  (forall fd events error write_only,
     steady (_handle_events fd events error write_only))
  /\ steady _flush_outbound
  /\ steady _handle_write
  /\ steady _handle_read
  /\ (forall error, steady (_handle_error error)).
Proof.
  repeat split.
  - apply steady_handle_events.
  - apply steady_flush_outbound.
  - apply steady_handle_write.
  - apply steady_handle_read.
  - apply steady_handle_error.
Qed.

(** ** The read path *)

Lemma read_delivers_run :
  forall (st : State) (sock : Socket) (intr : list OSErr) (data : bytes)
         (later : list (outcome bytes)),
    socket (self st) = Some sock ->
    Forall interrupted intr ->
    data <> [] ->
    recvs (world st) = map Fails intr ++ Done data :: later ->
    _handle_read st =
      (Ok (Some (len data)),
       mkState (self st) (with_recvs later (world st))
         (trace st ++ recv_calls (fileno sock) (S (List.length intr))
            ++ [OnDataAvailable data])).
Proof.
  intros [c w tr] sock intr data later Hs Hi Hd Hw; cbn in Hs, Hw.
  unfold _handle_read; run.
  erewrite recv_retrying_final with (sock := sock) (intr := intr)
    (o := Done data) (later := later); cbn; eauto.
  - destruct data as [|b data]; [congruence|]. run.
    unfold recv_calls. norm_app. reflexivity.
  - rewrite Hw, length_app, length_map. cbn. lia.
Qed.

(** X6: a read that returns data (after any number of interrupted tries)
    hands exactly that data to the protocol layer, once, and returns its
    length; the attributes of the connection are not touched. *)
Theorem handle_read_delivers :
  forall (st : State) (sock : Socket) (intr : list OSErr) (data : bytes)
         (later : list (outcome bytes)),
    socket (self st) = Some sock ->
    Forall interrupted intr ->
    data <> [] ->
    recvs (world st) = map Fails intr ++ Done data :: later ->
    _handle_read st =
      (Ok (Some (len data)),
       mkState (self st) (with_recvs later (world st))
         (trace st ++ recv_calls (fileno sock) (S (List.length intr))
            ++ [OnDataAvailable data])).
Proof. exact read_delivers_run. Qed.

(** X7: a read that fails with [socket.timeout], with the SSL want-read
    error or with [EAGAIN]/[EWOULDBLOCK] returns 0: nothing is delivered,
    nothing is logged, the connection stays as it is. *)
Theorem handle_read_waits :
  forall (st : State) (sock : Socket) (intr : list OSErr) (e : OSErr)
         (later : list (outcome bytes)),
    socket (self st) = Some sock ->
    Forall interrupted intr ->
    waits e ->
    recvs (world st) = map Fails intr ++ Fails e :: later ->
    _handle_read st =
      (Ok (Some 0),
       mkState (self st) (with_recvs later (world st))
         (trace st ++ recv_calls (fileno sock) (S (List.length intr)))).
Proof.
  intros [c w tr] sock intr e later Hs Hi [Hne He] Hw; cbn in Hs, Hw.
  unfold _handle_read; run.
  erewrite recv_retrying_final with (sock := sock) (intr := intr)
    (o := Fails e) (later := later); cbn; eauto.
  - unfold is_timeout, is_SSLError, _handle_timeout.
    destruct (err_class e); run; rewrite ?He; reflexivity.
  - rewrite Hw, length_app, length_map. cbn. lia.
Qed.

(** ** The event handler *)

(** X8: in write-only mode, READ together with ERROR (WRITE clear) is taken
    for a disconnected socket: the handler runs the disconnect sequence
    without reading and without looking at the error it was given; the
    ERROR branch below is skipped, the socket being gone. *)
Theorem handle_events_write_only_disconnects :
  forall (st : State) (sock : Socket) (fd events : Z) (error : error_value),
    socket (self st) = Some sock ->
    has events WRITE = false ->
    has events READ = true ->
    has events ERROR = true ->
    _handle_events fd events error true st =
      (result_of (phase_signal (connection_state (self st))),
       mkState (reset (self st)) (world st)
         (trace st
            ++ Log ERROR_ "BAD libc:  Write-Only but Read+Error. Assume socket disconnected."
            :: disconnect_calls (self st)
            ++ closed_callback (connection_state (self st)))).
Proof.
  intros [c w tr] sock fd events error Hs Hw Hr He; cbn in Hs.
  unfold has in *. unfold _handle_events.
  rewrite bind_has_socket. unfold socket_open; cbn [self]. rewrite Hs; cbn [negb].
  rewrite bind_has_socket. unfold socket_open; cbn [self]. rewrite Hs.
  rewrite Hw, Hr, He. cbn [andb negb when].
  unfold bind at 1. unfold ret at 1.
  rewrite bind_has_socket. unfold socket_open; cbn [self]. rewrite Hs. cbn [andb when].
  unfold bind at 1. unfold ret at 1.
  rewrite bind_has_socket. unfold socket_open; cbn [self]. rewrite Hs. cbn [andb when].
  unfold bind at 1. unfold bind at 1. unfold log at 1, emit at 1.
  rewrite handle_disconnect_effect. cbn [self world trace].
  destruct (phase_signal (connection_state c)) eqn:Hp; cbn [result_of].
  - norm_app. reflexivity.
  - rewrite bind_has_socket. unfold socket_open, reset; cbn.
    norm_app. reflexivity.
Qed.

(** ** Disposing of the socket *)

Lemma cleanup_socket_effect : forall st : State,
  _cleanup_socket st =
  (Ok tt,
   mkState (with_socket None (self st)) (world st)
     (trace st ++ closing_calls (socket (self st)))).
Proof.
  intros [c w tr]. cbn [self world trace].
  destruct (socket c) as [sock|] eqn:Hs.
  - rewrite (cleanup_socket_run c w tr sock Hs). reflexivity.
  - unfold _cleanup_socket; run. rewrite Hs. cbn. rewrite app_nil_r.
    destruct c; cbn in *. subst. reflexivity.
Qed.

(** X10: [_cleanup_socket] never raises, whatever [shutdown] does: after
    it [self.socket] is [None], and the socket that was there has been shut
    down and closed, in this order.  A second call in a row does nothing. *)
Theorem cleanup_socket_idempotent : forall st : State,
  (exists st' : State,
     _cleanup_socket st = (Ok tt, st')
     /\ socket (self st') = None
     /\ trace st' = trace st ++ closing_calls (socket (self st))
     /\ _cleanup_socket st' = (Ok tt, st'))
  /\ (_cleanup_socket ;; _cleanup_socket) st = _cleanup_socket st.
Proof.
  intros st.
  assert (H2 : _cleanup_socket
                 (mkState (with_socket None (self st)) (world st)
                    (trace st ++ closing_calls (socket (self st))))
               = (Ok tt,
                  mkState (with_socket None (self st)) (world st)
                    (trace st ++ closing_calls (socket (self st))))).
  { rewrite cleanup_socket_effect. cbn [self world trace].
    destruct (self st); cbn. rewrite app_nil_r. reflexivity. }
  split.
  - eexists. split; [apply cleanup_socket_effect|].
    cbn [self trace]. split; [destruct (self st); reflexivity|].
    split; [reflexivity|exact H2].
  - unfold bind. rewrite cleanup_socket_effect. exact H2.
Qed.

(** ** The error handler *)

(** X11: an error value without an error ([None], the integer 0, an
    exception whose [errno] is [None] or 0) makes [_handle_error] log that
    there was no error and return: the connection stays as it is. *)
Theorem handle_error_codeless : forall (error : error_value) (st : State),
  codeless error ->
  _handle_error error st =
  (Ok tt,
   mkState (self st) (world st)
     (trace st ++ [Log CRITICAL "Tried to handle an error where no error existed"])).
Proof.
  intros error [c w tr] H. unfold _handle_error, timed_out_in_str, _get_error_code.
  destruct error as [|n|e]; cbn in H.
  - reflexivity.
  - subst n. reflexivity.
  - destruct H as [Hc Ht]. rewrite Ht. unfold bind at 1, ret.
    rewrite Hc. reflexivity.
Qed.

Lemma reset_with_event_state : forall m c, reset (with_event_state m c) = reset c.
Proof. intros m []; reflexivity. Qed.

Lemma disconnect_calls_with_event_state : forall m c,
  disconnect_calls (with_event_state m c) = disconnect_calls c.
Proof. intros m []; reflexivity. Qed.

Lemma connection_state_with_event_state : forall m c,
  connection_state (with_event_state m c) = connection_state c.
Proof. intros m []; reflexivity. Qed.

Lemma handle_error_fatal_run : forall (e : OSErr) (st : State),
  fatal e ->
  _handle_error (ErrExc e) st =
  (result_of (phase_signal (connection_state (self st))),
   mkState (reset (self st)) (world st)
     (trace st ++ error_log (params_ssl (self st)) e
        ++ disconnect_calls (self st)
        ++ closed_callback (connection_state (self st)))).
Proof.
  intros e [c w tr] (Hc & Hi & Ht).
  unfold _handle_error, timed_out_in_str, _get_error_code, error_log.
  rewrite Ht. unfold bind at 1, ret. rewrite Hc, Hi.
  unfold bind at 1, gets at 1. cbn [self world trace].
  unfold isinstance_SSLError, error_arg0_is.
  destruct (mem (code_of (err_errno e)) ERRORS_TO_ABORT).
  { unfold bind, log, emit. rewrite handle_disconnect_effect; cbn [self world trace].
    norm_app. reflexivity. }
  destruct (params_ssl c && is_SSLError e).
  - destruct (arg0_is e ssl.SSL_ERROR_WANT_READ);
      [|destruct (arg0_is e ssl.SSL_ERROR_WANT_WRITE)];
      unfold bind, update_self, log, emit;
      rewrite handle_disconnect_effect; cbn [self world trace];
      rewrite ?reset_with_event_state, ?disconnect_calls_with_event_state,
        ?connection_state_with_event_state;
      norm_app; rewrite ?app_nil_r; reflexivity.
  - unfold bind, log, emit. rewrite handle_disconnect_effect; cbn [self world trace].
    norm_app. reflexivity.
Qed.

(** X12: every exception with an error number that is not on the ignore
    list (and whose text does not say 'timed out') makes [_handle_error] run
    the disconnect sequence, whether the number is on the abort list or
    not, and whatever TLS hint the handler sets on the way: the state is
    reset, the socket closed, and the phase decides what is raised. *)
Theorem handle_error_fatal_disconnects : forall (e : OSErr) (st : State),
  fatal e ->
  _handle_error (ErrExc e) st =
  (result_of (phase_signal (connection_state (self st))),
   mkState (reset (self st)) (world st)
     (trace st ++ error_log (params_ssl (self st)) e
        ++ disconnect_calls (self st)
        ++ closed_callback (connection_state (self st)))).
Proof. exact handle_error_fatal_run. Qed.

(** ** The dial *)

Lemma resolve_loop_fails :
  forall (intr : list OSErr) (fuel : nat) c w tr (e : OSErr)
         (later : list (outcome (list AddrInfo))),
    Forall interrupted intr ->
    errno_is e errno.EINTR = false ->
    resolves w = map Fails intr ++ Fails e :: later ->
    (List.length intr < fuel)%nat ->
    resolve_loop fuel (mkState c w tr)
    = (Ok (inr e),
       mkState c (with_resolves later w)
         (tr ++ repeat GetAddrInfo (S (List.length intr))
            ++ [Log CRITICAL "Could not get addresses to use: %s (%s)"])).
Proof.
  induction intr as [|e0 intr IH]; intros fuel c w tr e later Hi He Hr Hf;
    (destruct fuel as [|fuel]; [cbn in Hf; lia|]).
  - unfold resolve_loop; run. cbn in Hr. rewrite Hr. cbn. rewrite He. cbn.
    norm_app. reflexivity.
  - inversion Hi as [|? ? He0 Hi']; subst.
    unfold resolve_loop; fold resolve_loop; run. cbn in Hr. rewrite Hr. cbn.
    unfold interrupted in He0. rewrite He0.
    rewrite (IH fuel c (with_resolves (map Fails intr ++ Fails e :: later) w)
               _ e later Hi' He eq_refl) by (cbn in Hf; lia).
    destruct w; cbn. norm_app. reflexivity.
Qed.

(** X13: when the resolution fails with an error other than [EINTR]
    (after any number of interrupted tries), [_adapter_connect] logs the
    failure and returns the exception itself, not a text; no socket is made
    and the connection is as it was. *)
Theorem adapter_connect_resolution_fails :
  forall (st : State) (intr : list OSErr) (e : OSErr)
         (later : list (outcome (list AddrInfo))),
    Forall interrupted intr ->
    errno_is e errno.EINTR = false ->
    resolves (world st) = map Fails intr ++ Fails e :: later ->
    _adapter_connect st =
      (Ok (Some (ErrorObject e)),
       mkState (self st) (with_resolves later (world st))
         (trace st ++ repeat GetAddrInfo (S (List.length intr))
            ++ [Log CRITICAL "Could not get addresses to use: %s (%s)"])).
Proof.
  intros [c w tr] intr e later Hi He Hr; cbn [self world trace] in *.
  unfold _adapter_connect. unfold bind at 1, ask at 1. cbn [self world trace].
  unfold bind at 1.
  rewrite (resolve_loop_fails intr _ c w tr e later Hi He Hr)
    by (rewrite Hr, length_app, length_map; cbn; lia).
  reflexivity.
Qed.




(** ** Fatal errors of send and recv *)

Lemma fatal_not_ignored : forall e : OSErr,
  fatal e ->
  errno_is e errno.EINTR = false
  /\ (errno_is e errno.EAGAIN || errno_is e errno.EWOULDBLOCK) = false.
Proof.
  intros e (Hc & Hi & _). unfold errno_is, no_code, code_of in *.
  destruct (err_errno e) as [code|]; [|discriminate].
  unfold mem, ERRORS_TO_IGNORE in Hi. cbn in Hi.
  rewrite !orb_false_iff in Hi. destruct Hi as (Hw & Ha & Hn & _).
  rewrite Ha, Hn, Hw. split; reflexivity.
Qed.

Lemma disconnect_calls_with_outbound_buffer : forall q c,
  disconnect_calls (with_outbound_buffer q c) = disconnect_calls c.
Proof. intros q []; reflexivity. Qed.

Lemma reset_with_outbound_buffer : forall q c,
  reset (with_outbound_buffer q c) = reset c.
Proof. intros q []; reflexivity. Qed.

Lemma write_loop_fatal :
  forall (fuel : nat) (acc : Z) c w tr sock (A : bytes) (rest : list bytes)
         (intr : list OSErr) (e : OSErr) (later : list (outcome Z)),
    socket c = Some sock ->
    outbound_buffer c = A :: rest ->
    Forall interrupted intr ->
    sends w = map Fails intr ++ Fails e :: later ->
    is_timeout e = false ->
    fatal e ->
    write_loop (S fuel) acc (mkState c w tr)
    = (disconnected (connection_state c),
       mkState (reset c) (with_sends later w)
         (tr ++ repeat (SockSend (fileno sock) A) (S (List.length intr))
            ++ error_log (params_ssl c) e
            ++ disconnect_calls c
            ++ closed_callback (connection_state c))).
Proof.
  intros fuel acc c w tr sock A rest intr e later Hs Hq Hi Hw Ht Hf.
  destruct (fatal_not_ignored e Hf) as [Hne Hna].
  cbn [write_loop]; run. rewrite Hq; cbn.
  rewrite (send_retrying_final intr _ _ sock A (Fails e) later);
    [|destruct c; exact Hs|exact Hi|exact Hne|exact Hw
     |rewrite Hw, length_app, length_map; cbn; lia].
  cbn. rewrite Ht, Hna. cbn.
  rewrite (handle_error_fatal_run e _ Hf). cbn [self world trace].
  rewrite reset_with_outbound_buffer, disconnect_calls_with_outbound_buffer.
  unfold disconnected.
  replace (connection_state (with_outbound_buffer rest c))
    with (connection_state c) by (destruct c; reflexivity).
  replace (params_ssl (with_outbound_buffer rest c))
    with (params_ssl c) by (destruct c; reflexivity).
  destruct (phase_signal (connection_state c)); cbn;
    destruct w; cbn; norm_app; reflexivity.
Qed.

Lemma handle_write_fatal_run :
  forall c w tr sock (done : list bytes) (A : bytes) (rest : list bytes)
         (intr : list OSErr) (e : OSErr) (later : list (outcome Z)),
    socket c = Some sock ->
    outbound_buffer c = done ++ A :: rest ->
    Forall interrupted intr ->
    sends w = full_sends done ++ map Fails intr ++ Fails e :: later ->
    is_timeout e = false ->
    fatal e ->
    _handle_write (mkState c w tr)
    = (disconnected (connection_state c),
       mkState (reset c) (with_sends later w)
         (tr ++ send_calls (fileno sock) done
            ++ repeat (SockSend (fileno sock) A) (S (List.length intr))
            ++ error_log (params_ssl c) e
            ++ disconnect_calls c
            ++ closed_callback (connection_state c))).
Proof.
  intros c w tr sock done A rest intr e later Hs Hq Hi Hw Ht Hf.
  rewrite (handle_write_after_full done c w tr sock (A :: rest) _ Hs Hq Hw).
  assert (Hs' : socket (with_outbound_buffer (A :: rest) c) = Some sock)
    by (destruct c; exact Hs).
  assert (Hq' : outbound_buffer (with_outbound_buffer (A :: rest) c) = A :: rest)
    by (destruct c; reflexivity).
  assert (Hw' : sends (with_sends (map Fails intr ++ Fails e :: later) w)
                = map Fails intr ++ Fails e :: later)
    by (destruct w; reflexivity).
  rewrite (write_loop_fatal _ _ _ _ _ sock A rest intr e later Hs' Hq' Hi Hw' Ht Hf).
  rewrite reset_with_outbound_buffer, disconnect_calls_with_outbound_buffer.
  replace (connection_state (with_outbound_buffer (A :: rest) c))
    with (connection_state c) by (destruct c; reflexivity).
  replace (params_ssl (with_outbound_buffer (A :: rest) c))
    with (params_ssl c) by (destruct c; reflexivity).
  destruct w; cbn. norm_app. reflexivity.
Qed.

(** X16: a send that fails with a fatal error (an error number outside
    the ignore list, after any number of whole sends and interrupted
    tries) ends the flush with the disconnect sequence: the frames still
    queued are discarded with the reset, the socket is closed, and the
    write handler raises the error of the phase or returns [None]. *)
Theorem handle_write_fatal_error_disconnects :
  forall (st : State) (sock : Socket) (done : list bytes) (A : bytes)
         (rest : list bytes) (intr : list OSErr) (e : OSErr)
         (later : list (outcome Z)),
    socket (self st) = Some sock ->
    outbound_buffer (self st) = done ++ A :: rest ->
    Forall interrupted intr ->
    sends (world st) = full_sends done ++ map Fails intr ++ Fails e :: later ->
    is_timeout e = false ->
    fatal e ->
    _handle_write st
    = (disconnected (connection_state (self st)),
       mkState (reset (self st)) (with_sends later (world st))
         (trace st ++ send_calls (fileno sock) done
            ++ repeat (SockSend (fileno sock) A) (S (List.length intr))
            ++ error_log (params_ssl (self st)) e
            ++ disconnect_calls (self st)
            ++ closed_callback (connection_state (self st)))).
Proof.
  intros [c w tr] sock done A rest intr e later; cbn [self world trace].
  apply handle_write_fatal_run.
Qed.

(** X17: when the flush of a dispatch ends in the disconnect sequence,
    the dispatch is over: whatever other bits the event carries, in
    write-only mode or not, nothing is read, the error that came with the
    event is not handled, and the socket is closed once. *)
Theorem handle_events_failed_write_ends_dispatch :
  forall (st : State) (sock : Socket) (fd events : Z) (error : error_value)
         (write_only : bool) (done : list bytes) (A : bytes)
         (rest : list bytes) (intr : list OSErr) (e : OSErr)
         (later : list (outcome Z)),
    socket (self st) = Some sock ->
    has events WRITE = true ->
    outbound_buffer (self st) = done ++ A :: rest ->
    Forall interrupted intr ->
    sends (world st) = full_sends done ++ map Fails intr ++ Fails e :: later ->
    is_timeout e = false ->
    fatal e ->
    _handle_events fd events error write_only st
    = (result_of (phase_signal (connection_state (self st))),
       mkState (reset (self st)) (with_sends later (world st))
         (trace st ++ send_calls (fileno sock) done
            ++ repeat (SockSend (fileno sock) A) (S (List.length intr))
            ++ error_log (params_ssl (self st)) e
            ++ disconnect_calls (self st)
            ++ closed_callback (connection_state (self st)))).
Proof.
  intros [c w tr] sock fd events error wo done A rest intr e later
    Hs Hev Hq Hi Hw Ht Hf; cbn [self world trace] in *.
  unfold has in Hev. unfold _handle_events.
  rewrite bind_has_socket. unfold socket_open; cbn [self]. rewrite Hs; cbn [negb].
  rewrite bind_has_socket. unfold socket_open; cbn [self]. rewrite Hs.
  rewrite Hev. cbn [andb when].
  unfold bind at 1. unfold bind at 1.
  rewrite (handle_write_fatal_run c w tr sock done A rest intr e later
             Hs Hq Hi Hw Ht Hf).
  unfold disconnected.
  destruct (phase_signal (connection_state c)); cbn [result_of]; [reflexivity|].
  unfold _manage_event_state, reset; run. reflexivity.
Qed.

(** X18: a read that fails with a fatal error (an error number outside
    the ignore list; not a timeout, not the SSL want-read error) runs the
    disconnect sequence: nothing is delivered, the state is reset and the
    read handler raises the error of the phase or returns [None]. *)
Theorem handle_read_fatal_error_disconnects :
  forall (st : State) (sock : Socket) (intr : list OSErr) (e : OSErr)
         (later : list (outcome bytes)),
    socket (self st) = Some sock ->
    Forall interrupted intr ->
    recvs (world st) = map Fails intr ++ Fails e :: later ->
    is_timeout e = false ->
    (is_SSLError e = true -> arg0_is e ssl.SSL_ERROR_WANT_READ = false) ->
    fatal e ->
    _handle_read st
    = (disconnected (connection_state (self st)),
       mkState (reset (self st)) (with_recvs later (world st))
         (trace st ++ recv_calls (fileno sock) (S (List.length intr))
            ++ error_log (params_ssl (self st)) e
            ++ disconnect_calls (self st)
            ++ closed_callback (connection_state (self st)))).
Proof.
  intros [c w tr] sock intr e later Hs Hi Hw Ht Hssl Hf;
    cbn [self world trace] in *.
  destruct (fatal_not_ignored e Hf) as [Hne Hna].
  unfold _handle_read; run.
  erewrite recv_retrying_final with (sock := sock) (intr := intr)
    (o := Fails e) (later := later); cbn; eauto;
    [|rewrite Hw, length_app, length_map; cbn; lia].
  rewrite Ht, Hna.
  assert (H : (_handle_error (ErrExc e) ;; ret (@None Z))
                (mkState c (with_recvs later w)
                   (tr ++ repeat (SockRecv (fileno sock)) (S (List.length intr))))
              = (disconnected (connection_state c),
                 mkState (reset c) (with_recvs later w)
                   (tr ++ recv_calls (fileno sock) (S (List.length intr))
                      ++ error_log (params_ssl c) e
                      ++ disconnect_calls c
                      ++ closed_callback (connection_state c)))).
  { unfold bind at 1. rewrite (handle_error_fatal_run e _ Hf).
    cbn [self world trace]. unfold disconnected, recv_calls.
    destruct (phase_signal (connection_state c)); cbn; norm_app; reflexivity. }
  destruct (is_SSLError e); [rewrite (Hssl eq_refl)|]; exact H.
Qed.

(** ** A dispatch that writes and reads *)

Lemma handle_write_full_run :
  forall c w tr sock (frames : list bytes) (later : list (outcome Z)),
    socket c = Some sock ->
    outbound_buffer c = frames ->
    sends w = full_sends frames ++ later ->
    _handle_write (mkState c w tr)
    = (Ok (Some (total frames)),
       mkState (with_outbound_buffer [] c) (with_sends later w)
         (tr ++ send_calls (fileno sock) frames)).
Proof.
  intros c w tr sock frames later Hs Hq Hw.
  rewrite (handle_write_after_full frames c w tr sock [] later Hs);
    [|rewrite app_nil_r; exact Hq|exact Hw].
  cbn [write_loop]. unfold bind, gets, ret; cbn [self].
  destruct c; reflexivity.
Qed.

Lemma flush_full_run :
  forall c w tr sock (frames : list bytes) (later : list (outcome Z)),
    socket c = Some sock ->
    ioloop c = true ->
    outbound_buffer c = frames ->
    sends w = full_sends frames ++ later ->
    _flush_outbound (mkState c w tr)
    = (Ok tt,
       mkState (with_event_state (flushed_mask c) (with_outbound_buffer [] c))
         (with_sends later w)
         (tr ++ send_calls (fileno sock) frames ++ mask_update c (fileno sock))).
Proof.
  intros c w tr sock frames later Hs Hl Hq Hw.
  unfold _flush_outbound. unfold bind at 1.
  rewrite (handle_write_full_run c w tr sock frames later Hs Hq Hw).
  unfold _manage_event_state, flushed_mask, mask_update, has; run.
  destruct c as [use_ssl loop stop s base es phase q]; cbn in *. subst.
  destruct (truthy (Z.land es WRITE)); cbn.
  - norm_app. reflexivity.
  - rewrite app_nil_r. reflexivity.
Qed.

(** X19: a flush in which the socket takes every queued frame whole
    leaves the queue empty and the mask without write interest: a mask
    that had WRITE goes back to the base mask and the reactor is told once,
    after the last send; a mask without WRITE is left alone and the reactor
    is not called. *)
Theorem flush_outbound_drains :
  forall (st : State) (sock : Socket) (frames : list bytes)
         (later : list (outcome Z)),
    socket (self st) = Some sock ->
    ioloop (self st) = true ->
    outbound_buffer (self st) = frames ->
    sends (world st) = full_sends frames ++ later ->
    _flush_outbound st
    = (Ok tt,
       mkState
         (with_event_state (flushed_mask (self st))
            (with_outbound_buffer [] (self st)))
         (with_sends later (world st))
         (trace st ++ send_calls (fileno sock) frames
            ++ mask_update (self st) (fileno sock))).
Proof.
  intros [c w tr] sock frames later; cbn [self world trace].
  apply flush_full_run.
Qed.

(** X15: an event with WRITE and READ (and no ERROR) is served in this
    order: the queue is flushed, the mask is brought up to date, then the
    socket is read and the data handed on.  The read sees the connection
    that the flush left. *)
Theorem handle_events_writes_then_reads :
  forall (st : State) (sock : Socket) (fd events : Z) (error : error_value)
         (frames : list bytes) (data : bytes)
         (later_s : list (outcome Z)) (later_r : list (outcome bytes)),
    socket (self st) = Some sock ->
    ioloop (self st) = true ->
    has events WRITE = true ->
    has events READ = true ->
    has events ERROR = false ->
    outbound_buffer (self st) = frames ->
    sends (world st) = full_sends frames ++ later_s ->
    data <> [] ->
    recvs (world st) = Done data :: later_r ->
    _handle_events fd events error false st
    = (Ok tt,
       mkState
         (with_event_state (flushed_mask (self st))
            (with_outbound_buffer [] (self st)))
         (with_recvs later_r (with_sends later_s (world st)))
         (trace st ++ send_calls (fileno sock) frames
            ++ mask_update (self st) (fileno sock)
            ++ [SockRecv (fileno sock); OnDataAvailable data])).
Proof.
  intros [c w tr] sock fd events error frames data later_s later_r
    Hs Hl Hw Hr He Hq Hsd Hd Hrc; cbn [self world trace] in *.
  unfold has in Hw, Hr, He. unfold _handle_events.
  rewrite bind_has_socket. unfold socket_open; cbn [self]. rewrite Hs; cbn [negb].
  rewrite bind_has_socket. unfold socket_open; cbn [self]. rewrite Hs.
  rewrite Hw, Hr, He. cbn [andb negb when].
  unfold bind at 1.
  change (_handle_write ;; _manage_event_state) with _flush_outbound.
  rewrite (flush_full_run c w tr sock frames later_s Hs Hl Hq Hsd).
  assert (Hs' : socket (with_event_state (flushed_mask c) (with_outbound_buffer [] c))
                = Some sock) by (destruct c; exact Hs).
  rewrite bind_has_socket. unfold socket_open; cbn [self]. rewrite Hs'.
  cbn [andb negb when].
  unfold bind at 1. unfold bind at 1.
  erewrite read_delivers_run with (sock := sock) (intr := [])
    (data := data) (later := later_r);
    [|exact Hs'|constructor|exact Hd|destruct w; exact Hrc].
  unfold ret at 1. cbn [self world trace].
  rewrite bind_has_socket. unfold socket_open; cbn [self]. rewrite Hs'.
  rewrite !andb_false_r. cbn [andb when].
  unfold bind at 1, ret at 1.
  rewrite bind_has_socket. unfold socket_open; cbn [self]. rewrite Hs'.
  cbn [andb when]. unfold ret.
  unfold recv_calls. cbn [List.length repeat]. norm_app. reflexivity.
Qed.

(** X20: after the disconnect sequence, whether it returned or raised,
    an event that still arrives for the old descriptor touches nothing:
    whatever its bits and its error, the handler logs that the socket is
    closed and returns, with no call on a socket, on the reactor or on the
    protocol layer. *)
Theorem handle_events_after_disconnect :
  forall (st : State) (fd events : Z) (error : error_value) (write_only : bool),
    _handle_events fd events error write_only (snd (_handle_disconnect st))
    = (Ok tt,
       logged (snd (_handle_disconnect st)) ERROR_
         "Received events on closed socket: %r").
Proof.
  intros st fd events error wo. rewrite handle_disconnect_effect. cbn [snd].
  unfold _handle_events. rewrite bind_has_socket. reflexivity.
Qed.

(** ** The properties at sample inputs *)

(** The socket takes [A], [B] and [C] whole. *)
Lemma handle_write_flushes_in_order_witness :
  _handle_write
    (mkState loaded_connection
       (with_sends [Done 3; Done 2; Done 1] sample_world) [])
  = (Ok (Some 6),
     mkState sample_connection sample_world
       [SockSend 7 frame_A; SockSend 7 frame_B; SockSend 7 frame_C]).
Proof.
  apply (handle_write_flushes_in_order
           (mkState loaded_connection
              (with_sends [Done 3; Done 2; Done 1] sample_world) [])
           sample_socket [frame_A; frame_B; frame_C] []);
    reflexivity.
Defined.

(** The socket takes [A] whole and, after an interrupted try, one byte of
    [B]. *)
Lemma handle_write_stops_at_partial_witness :
  _handle_write
    (mkState loaded_connection
       (with_sends [Done 3; Fails eintr; Done 1] sample_world) [])
  = (Ok (Some 4),
     mkState (with_outbound_buffer [[Byte.x45]; frame_C] sample_connection)
       sample_world
       [SockSend 7 frame_A; SockSend 7 frame_B; SockSend 7 frame_B;
        Log DEBUG "Partial write, requeing remaining data"]).
Proof.
  apply (handle_write_stops_at_partial
           (mkState loaded_connection
              (with_sends [Done 3; Fails eintr; Done 1] sample_world) [])
           sample_socket [frame_A] frame_B [frame_C] [eintr] 1 []);
    [reflexivity | reflexivity | repeat constructor | reflexivity
     | unfold len, frame_B; cbn; lia].
Defined.

(** The socket takes [A] whole and would block on [B]. *)
Lemma handle_write_requeues_blocked_witness :
  _handle_write
    (mkState loaded_connection
       (with_sends [Done 3; Fails would_block] sample_world) [])
  = (Ok (Some 3),
     mkState (with_outbound_buffer [frame_B; frame_C] sample_connection)
       sample_world
       [SockSend 7 frame_A; SockSend 7 frame_B;
        Log DEBUG "Would block, requeuing frame"]).
Proof.
  apply (handle_write_requeues_blocked
           (mkState loaded_connection
              (with_sends [Done 3; Fails would_block] sample_world) [])
           sample_socket [frame_A] frame_B [frame_C] [] would_block []);
    [reflexivity | reflexivity | constructor | reflexivity
     | split; [reflexivity | right; reflexivity]].
Defined.

(** The send of [A] raises an [OSError] without a number: [A] is lost. *)
Lemma handle_write_drops_frame_on_codeless_error_witness :
  _handle_write
    (mkState loaded_connection (with_sends [Fails bare_error] sample_world) [])
  = (Ok None,
     mkState (with_outbound_buffer [frame_B; frame_C] sample_connection)
       sample_world
       [SockSend 7 frame_A;
        Log CRITICAL "Tried to handle an error where no error existed"]).
Proof.
  apply (handle_write_drops_frame_on_codeless_error
           (mkState loaded_connection
              (with_sends [Fails bare_error] sample_world) [])
           sample_socket frame_A [frame_B; frame_C] bare_error []);
    reflexivity.
Defined.

(** After [A] and one byte of [B] are sent, what is queued is the end of
    what was queued. *)
Lemma pending_bytes_stay_in_order_witness :
  tail_of [frame_A; frame_B; frame_C] [[Byte.x45]; frame_C].
Proof.
  apply (proj1 (pending_bytes_stay_in_order
                  (mkState loaded_connection
                     (with_sends [Done 3; Done 1] sample_world) [])
                  (mkState
                     (with_outbound_buffer [[Byte.x45]; frame_C] sample_connection)
                     sample_world
                     [SockSend 7 frame_A; SockSend 7 frame_B;
                      Log DEBUG "Partial write, requeing remaining data"])
                  sample_socket eq_refl) (Some 4)).
  reflexivity.
Defined.

(** A frame arrives after an interrupted try. *)
Lemma handle_read_delivers_witness :
  _handle_read
    (mkState loaded_connection
       (with_recvs [Fails eintr; Done data_in] sample_world) [])
  = (Ok (Some 4),
     mkState loaded_connection sample_world
       [SockRecv 7; SockRecv 7; OnDataAvailable data_in]).
Proof.
  apply (handle_read_delivers
           (mkState loaded_connection
              (with_recvs [Fails eintr; Done data_in] sample_world) [])
           sample_socket [eintr] data_in []);
    [reflexivity | repeat constructor | discriminate | reflexivity].
Defined.

(** Nothing to read yet. *)
Lemma handle_read_waits_witness :
  _handle_read
    (mkState loaded_connection (with_recvs [Fails would_block] sample_world) [])
  = (Ok (Some 0), mkState loaded_connection sample_world [SockRecv 7]).
Proof.
  apply (handle_read_waits
           (mkState loaded_connection
              (with_recvs [Fails would_block] sample_world) [])
           sample_socket [] would_block []);
    [reflexivity | constructor | split; reflexivity | reflexivity].
Defined.

(** Write-only mode, READ and ERROR, on an open connection; the error that
    comes with the event is an integer, which the error handler could not
    take. *)
Lemma handle_events_write_only_disconnects_witness :
  _handle_events 7 (Z.lor READ ERROR) (ErrInt 5) true
    (mkState sample_connection sample_world [])
  = (Ok tt,
     mkState (reset sample_connection) sample_world
       [Log ERROR_ "BAD libc:  Write-Only but Read+Error. Assume socket disconnected.";
        RemoveHeartbeat; SockShutdown 7; SockClose 7;
        Log WARNING "Socket closed when connection was open";
        IoloopStop; OnConnectionClosed]).
Proof.
  apply (handle_events_write_only_disconnects
           (mkState sample_connection sample_world [])
           sample_socket 7 (Z.lor READ ERROR) (ErrInt 5));
    reflexivity.
Defined.

(** The error handler is given [None]. *)
Lemma handle_error_codeless_witness :
  _handle_error ErrNone (mkState sample_connection sample_world [])
  = (Ok tt,
     mkState sample_connection sample_world
       [Log CRITICAL "Tried to handle an error where no error existed"]).
Proof.
  apply (handle_error_codeless ErrNone
           (mkState sample_connection sample_world [])).
  exact I.
Defined.

(** A connection reset, which is on neither list, while authenticating. *)
Lemma handle_error_fatal_disconnects_witness :
  _handle_error (ErrExc connection_reset)
    (mkState authenticating_connection sample_world [])
  = (Raise ProbableAuthenticationError,
     mkState (reset authenticating_connection) sample_world
       [Log ERROR_ "Socket Error: %s";
        RemoveHeartbeat; SockShutdown 7; SockClose 7;
        Log ERROR_ "Socket closed while authenticating indicating a probable authentication error";
        IoloopStop]).
Proof.
  apply (handle_error_fatal_disconnects connection_reset
           (mkState authenticating_connection sample_world [])).
  repeat split; reflexivity.
Defined.

(** The resolver is interrupted, then fails. *)
Lemma adapter_connect_resolution_fails_witness :
  _adapter_connect (mkState closed_connection unresolved_world [])
  = (Ok (Some (ErrorObject name_not_known)),
     mkState closed_connection sample_world
       [GetAddrInfo; GetAddrInfo;
        Log CRITICAL "Could not get addresses to use: %s (%s)"]).
Proof.
  apply (adapter_connect_resolution_fails
           (mkState closed_connection unresolved_world [])
           [eintr] name_not_known []);
    [repeat constructor | reflexivity | reflexivity].
Defined.


(** The three frames go out, write interest is dropped, a frame comes in. *)
Lemma handle_events_writes_then_reads_witness :
  _handle_events 7 (Z.lor READ WRITE) ErrNone false
    (mkState writing_connection
       (with_recvs [Done data_in]
          (with_sends [Done 3; Done 2; Done 1] sample_world)) [])
  = (Ok tt,
     mkState sample_connection sample_world
       [SockSend 7 frame_A; SockSend 7 frame_B; SockSend 7 frame_C;
        UpdateHandler 7 (Z.lor READ ERROR);
        SockRecv 7; OnDataAvailable data_in]).
Proof.
  apply (handle_events_writes_then_reads
           (mkState writing_connection
              (with_recvs [Done data_in]
                 (with_sends [Done 3; Done 2; Done 1] sample_world)) [])
           sample_socket 7 (Z.lor READ WRITE) ErrNone
           [frame_A; frame_B; frame_C] data_in [] []);
    try reflexivity. discriminate.
Defined.

(** [A] goes out, the send of [B] finds the pipe broken. *)
Lemma handle_write_fatal_error_disconnects_witness :
  _handle_write
    (mkState loaded_connection
       (with_sends [Done 3; Fails broken_pipe] sample_world) [])
  = (Ok None,
     mkState (reset sample_connection) sample_world
       [SockSend 7 frame_A; SockSend 7 frame_B;
        Log ERROR_ "Fatal Socket Error: %r";
        RemoveHeartbeat; SockShutdown 7; SockClose 7;
        Log WARNING "Socket closed when connection was open";
        IoloopStop; OnConnectionClosed]).
Proof.
  apply (handle_write_fatal_error_disconnects
           (mkState loaded_connection
              (with_sends [Done 3; Fails broken_pipe] sample_world) [])
           sample_socket [frame_A] frame_B [frame_C] [] broken_pipe []);
    [reflexivity | reflexivity | constructor | reflexivity | reflexivity
     | repeat split; reflexivity].
Defined.

(** The same in a dispatch with WRITE, READ and ERROR: data is waiting,
    and it is not read. *)
Lemma handle_events_failed_write_ends_dispatch_witness :
  _handle_events 7 (Z.lor (Z.lor READ WRITE) ERROR) (ErrExc broken_pipe) false
    (mkState loaded_connection
       (with_recvs [Done data_in]
          (with_sends [Done 3; Fails broken_pipe] sample_world)) [])
  = (Ok tt,
     mkState (reset sample_connection)
       (with_recvs [Done data_in] sample_world)
       [SockSend 7 frame_A; SockSend 7 frame_B;
        Log ERROR_ "Fatal Socket Error: %r";
        RemoveHeartbeat; SockShutdown 7; SockClose 7;
        Log WARNING "Socket closed when connection was open";
        IoloopStop; OnConnectionClosed]).
Proof.
  apply (handle_events_failed_write_ends_dispatch
           (mkState loaded_connection
              (with_recvs [Done data_in]
                 (with_sends [Done 3; Fails broken_pipe] sample_world)) [])
           sample_socket 7 (Z.lor (Z.lor READ WRITE) ERROR) (ErrExc broken_pipe)
           false [frame_A] frame_B [frame_C] [] broken_pipe []);
    [reflexivity | reflexivity | reflexivity | constructor | reflexivity
     | reflexivity | repeat split; reflexivity].
Defined.

(** The peer resets the connection while frames are queued. *)
Lemma handle_read_fatal_error_disconnects_witness :
  _handle_read
    (mkState loaded_connection
       (with_recvs [Fails connection_reset] sample_world) [])
  = (Ok None,
     mkState (reset sample_connection) sample_world
       [SockRecv 7; Log ERROR_ "Socket Error: %s";
        RemoveHeartbeat; SockShutdown 7; SockClose 7;
        Log WARNING "Socket closed when connection was open";
        IoloopStop; OnConnectionClosed]).
Proof.
  apply (handle_read_fatal_error_disconnects
           (mkState loaded_connection
              (with_recvs [Fails connection_reset] sample_world) [])
           sample_socket [] connection_reset []);
    [reflexivity | constructor | reflexivity | reflexivity
     | discriminate | repeat split; reflexivity].
Defined.

(** The three frames go out and write interest is dropped. *)
Lemma flush_outbound_drains_witness :
  _flush_outbound
    (mkState writing_connection
       (with_sends [Done 3; Done 2; Done 1] sample_world) [])
  = (Ok tt,
     mkState sample_connection sample_world
       [SockSend 7 frame_A; SockSend 7 frame_B; SockSend 7 frame_C;
        UpdateHandler 7 (Z.lor READ ERROR)]).
Proof.
  apply (flush_outbound_drains
           (mkState writing_connection
              (with_sends [Done 3; Done 2; Done 1] sample_world) [])
           sample_socket [frame_A; frame_B; frame_C] []);
    reflexivity.
Defined.
